(** * pyshrun: the configuration parser and the command executor

    A shallow embedding of [src/pyshrun/parser.py] and [src/pyshrun/types.py].

    - Python strings are [string]; paths are the parsed form that
      [pathlib.PurePosixPath] keeps (a root and the list of components).
    - A YAML document is the tree [yaml]; a Python [dict] is the list of
      its items in insertion order (insertion order is what iteration and
      the usage text follow).
    - The classes of [types.py] are the constructors of [Node];
      [isinstance] is a boolean test on the constructor.
    - The process state the executor touches (environment table, working
      directory, standard output, the subprocesses started) and the fields
      of [ExecCtx] form the record [State]; exceptions travel as an
      [Outcome] next to the state they leave behind, so that a [finally]
      block is an ordinary function applied on both paths. *)

From Stdlib Require Import ZArith Ascii String List Bool Lia.
From stdpp Require Import base option list gmap strings.

Import ListNotations.
Set Warnings "-register-all".
Local Open Scope string_scope.
Local Open Scope list_scope.

(** ** Python [str] methods used by the parser *)

Module PyStr.

(** [str.startswith]. *)
Fixpoint startswith (s p : string) : bool :=
  match p with
  | EmptyString => true
  | String c p' =>
      match s with
      | EmptyString => false
      | String d s' => if Ascii.eqb c d then startswith s' p' else false
      end
  end.

Fixpoint drop (n : nat) (s : string) : string :=
  match n with
  | O => s
  | S n' => match s with EmptyString => EmptyString | String _ s' => drop n' s' end
  end.

(** [str.removeprefix]: the string is returned unchanged when it does not
    start with the prefix. *)
Definition removeprefix (s p : string) : string :=
  if startswith s p then drop (String.length p) s else s.

(** The ASCII part of Python's whitespace class: TAB, LF, VT, FF, CR,
    FS, GS, RS, US and space. Strings here are strings of bytes; the
    other white space of Unicode (U+0085, U+00A0 and further), which
    [str.strip] removes as well, is not recognised. *)
Definition isspace (c : ascii) : bool :=
  let n := nat_of_ascii c in
  ((9 <=? n)%nat && (n <=? 13)%nat) || ((28 <=? n)%nat && (n <=? 32)%nat).

Fixpoint lstrip (s : string) : string :=
  match s with
  | EmptyString => EmptyString
  | String c s' => if isspace c then lstrip s' else s
  end.

Fixpoint rstrip (s : string) : string :=
  match s with
  | EmptyString => EmptyString
  | String c s' =>
      match rstrip s' with
      | EmptyString => if isspace c then EmptyString else String c EmptyString
      | r => String c r
      end
  end.

(** [str.strip] with no argument. *)
Definition strip (s : string) : string := rstrip (lstrip s).

(** [str.split(sep)] for a one-character separator: always at least one
    field, empty fields kept. *)
Fixpoint split (sep : ascii) (s : string) : list string :=
  match s with
  | EmptyString => [EmptyString]
  | String c s' =>
      if Ascii.eqb c sep then EmptyString :: split sep s'
      else match split sep s' with
           | [] => [String c EmptyString]
           | f :: fs => String c f :: fs
           end
  end.

(** [sep.join(parts)]. *)
Fixpoint join (sep : string) (parts : list string) : string :=
  match parts with
  | [] => EmptyString
  | [p] => p
  | p :: ps => String.append p (String.append sep (join sep ps))
  end.

End PyStr.

(** ** [pathlib] on a POSIX system

    [Path] objects compare, print and join through their parsed form:
    a root ([""], ["/"] or ["//"]) and the components that are neither
    empty nor ["."]. *)

Module Pathlib.

Record Path := mkPath { root : string; tail : list string }.

(** [posixpath.splitroot]: exactly two leading slashes are kept as a root
    of their own, any other number collapses to one. *)
Definition splitroot (s : string) : string * string :=
  if PyStr.startswith s "/" then
    if PyStr.startswith s "//" && negb (PyStr.startswith s "///")
    then ("//", PyStr.drop 2 s)
    else ("/", PyStr.drop 1 s)
  else ("", s).

Definition keep_part (x : string) : bool :=
  negb (String.eqb x "") && negb (String.eqb x ".").

(** [Path(s)]. *)
Definition of_string (s : string) : Path :=
  let '(r, rel) := splitroot s in
  mkPath r (List.filter keep_part (PyStr.split "/" rel)).

(** [str(p)]. *)
Definition to_string (p : Path) : string :=
  match root p, tail p with
  | "", [] => "."
  | r, t => String.append r (PyStr.join "/" t)
  end.

(** [p / s]: an absolute right operand replaces the left one. *)
Definition div (p : Path) (s : string) : Path :=
  if PyStr.startswith s "/" then of_string s
  else mkPath (root p) (tail p ++ tail (of_string s)).

(** [p.parent]: a path without components is its own parent. *)
Definition parent (p : Path) : Path :=
  match tail p with
  | [] => p
  | t => mkPath (root p) (removelast t)
  end.

End Pathlib.

Abbreviation Path := Pathlib.Path.

(** ** Python dictionaries

    A [dict] is the list of its items in insertion order. Keys of a
    dictionary are unique; the operations keep them so. *)

Module PyDict.
Section Ops.
Context {V : Type}.

(** [d.get(k)]. *)
Fixpoint get (k : string) (d : list (string * V)) : option V :=
  match d with
  | [] => None
  | (k', v) :: r => if String.eqb k' k then Some v else get k r
  end.

(** [k in d]. *)
Definition has (k : string) (d : list (string * V)) : bool :=
  match get k d with Some _ => true | None => false end.

(** [d.get(k, default)]: also the value returned by [d.pop(k, default)]. *)
Definition getd (k : string) (d : list (string * V)) (default : V) : V :=
  match get k d with Some v => v | None => default end.

(** [d[k] = v]: a present key keeps its place, a new one goes last. *)
Fixpoint set (k : string) (v : V) (d : list (string * V)) : list (string * V) :=
  match d with
  | [] => [(k, v)]
  | (k', v') :: r => if String.eqb k' k then (k, v) :: r else (k', v') :: set k v r
  end.

(** What [d.pop(k, default)] leaves in [d]. *)
Fixpoint pop (k : string) (d : list (string * V)) : list (string * V) :=
  match d with
  | [] => []
  | (k', v) :: r => if String.eqb k' k then r else (k', v) :: pop k r
  end.

(** [d.update(other)]. *)
Definition update (d other : list (string * V)) : list (string * V) :=
  fold_left (fun acc kv => set (fst kv) (snd kv) acc) other d.

(** [list(d.keys())]. *)
Definition keys (d : list (string * V)) : list string := map fst d.
End Ops.
End PyDict.

(** ** YAML documents

    What [yaml.safe_load] returns, with the scalars the parser can tell
    apart: it only asks whether a value is a [str], a [list] or a [dict].
    Mapping keys are strings. A document is a tree: every mapping is an
    object of its own. A document in which one mapping object stands at
    two places (a YAML anchor with an alias) is not such a tree; there
    the keys that the command-object case pops out of the mapping are
    gone when the mapping is parsed again, which no tree shows. *)

Inductive yaml : Type :=
| YNull
| YBool (b : bool)
| YInt (z : Z)
| YStr (s : string)
| YList (items : list yaml)
| YMap (items : list (string * yaml)).

(** Python truthiness, [bool(v)]. *)
Definition py_bool (v : yaml) : bool :=
  match v with
  | YNull => false
  | YBool b => b
  | YInt z => negb (Z.eqb z 0)
  | YStr s => negb (String.eqb s "")
  | YList l => match l with [] => false | _ => true end
  | YMap d => match d with [] => false | _ => true end
  end.

(** ** The classes of [types.py]

    One constructor per class. Python does not check the annotations of a
    dataclass, so a field holds whatever the parser stored: [throw] and
    [desc] hold the document's value as it is. [PyNone] is Python's
    [None], which [_parse_command] returns for a value that is neither a
    string, a list nor a mapping. The [desc] field of [ThrowConfig],
    [CwdConfig] and [SimpleCommand] is never given and keeps its default.
    The base classes [Command] and [ConfigCmd] have no instance of their
    own in a parsed tree. [ensure_env] is a set: its list is the order
    in which a loop over the set visits the members. *)

Inductive Node : Type :=
| PyNone
| ThrowConfig (throw : yaml)
| DescConfig (desc : yaml)
| CwdConfig (cwd : Path)
| SimpleCommand (string : string)
| ListCommands (desc : yaml) (commands : list Node)
| CommandObj (desc : yaml) (cmd : Node) (cwd : option Path)
             (ensure_env : list string) (set_env : list (string * string))
             (throw : yaml)
| CommandRegistry (desc : string) (commands : list (string * Node)).

(** [isinstance(x, DescConfig)]. *)
Definition is_DescConfig (x : Node) : bool :=
  match x with DescConfig _ => true | _ => false end.

(** [isinstance(x, CommandRegistry)]. *)
Definition is_CommandRegistry (x : Node) : bool :=
  match x with CommandRegistry _ _ => true | _ => false end.

(** [isinstance(x, Command)]: every class but [CommandRegistry]; [None]
    is no instance of it. *)
Definition is_Command (x : Node) : bool :=
  match x with PyNone | CommandRegistry _ _ => false | _ => true end.

(** The [commands] of a registry. *)
Definition reg_commands (x : Node) : list (string * Node) :=
  match x with CommandRegistry _ c => c | _ => [] end.

(** Induction over nodes that reaches the members of a sequence, the
    inner node of a command object and the children of a registry. *)
Section NodeInduction.
Variable P : Node -> Prop.
Hypothesis HNone : P PyNone.
Hypothesis HThrow : forall t, P (ThrowConfig t).
Hypothesis HDesc : forall d, P (DescConfig d).
Hypothesis HCwd : forall c, P (CwdConfig c).
Hypothesis HSimple : forall s, P (SimpleCommand s).
Hypothesis HList : forall d commands, List.Forall P commands -> P (ListCommands d commands).
Hypothesis HObj : forall d inner c ee se t, P inner -> P (CommandObj d inner c ee se t).
Hypothesis HReg : forall d commands,
  List.Forall (fun kc => P (snd kc)) commands -> P (CommandRegistry d commands).

Fixpoint Node_nested_ind (n : Node) : P n :=
  match n with
  | PyNone => HNone
  | ThrowConfig t => HThrow t
  | DescConfig d => HDesc d
  | CwdConfig c => HCwd c
  | SimpleCommand s => HSimple s
  | ListCommands d commands =>
      HList d commands
        ((fix all (l : list Node) : List.Forall P l :=
            match l with
            | [] => @List.Forall_nil _ P
            | c :: r => @List.Forall_cons _ P c r (Node_nested_ind c) (all r)
            end) commands)
  | CommandObj d inner c ee se t => HObj d inner c ee se t (Node_nested_ind inner)
  | CommandRegistry d commands =>
      HReg d commands
        ((fix all (l : list (string * Node)) : List.Forall (fun kc => P (snd kc)) l :=
            match l with
            | [] => @List.Forall_nil _ _
            | (k, c) :: r =>
                @List.Forall_cons _ (fun kc => P (snd kc)) (k, c) r
                  (Node_nested_ind c) (all r)
            end) commands)
  end.
End NodeInduction.

(** [ListCommands.__post_init__]: the loop stops at the first
    [DescConfig] it meets, takes its text and removes it. [list.remove]
    drops the first element equal to the one found; an instance of another
    class never compares equal to it, so the element dropped is the one
    found. [None] stands for a loop that ran to the end. *)
Fixpoint hoist_desc (commands : list Node) : option (yaml * list Node) :=
  match commands with
  | [] => None
  | DescConfig d :: rest => Some (d, rest)
  | c :: rest =>
      match hoist_desc rest with
      | Some (d, rest') => Some (d, c :: rest')
      | None => None
      end
  end.

(** [ListCommands(commands=commands)]: the dataclass constructor, then
    [__post_init__]. *)
Definition new_ListCommands (commands : list Node) : Node :=
  match hoist_desc commands with
  | Some (d, commands') => ListCommands d commands'
  | None => ListCommands (YStr "") commands
  end.

Record RunConfig := mkRunConfig { reg : Node }.

(** [RunConfig()]: an empty registry. *)
Definition new_RunConfig : RunConfig := mkRunConfig (CommandRegistry "" []).

(** [RunConfig.override]. *)
Definition override (self other : RunConfig) : RunConfig :=
  match reg self with
  | CommandRegistry d c =>
      mkRunConfig (CommandRegistry d (PyDict.update c (reg_commands (reg other))))
  | r => mkRunConfig r
  end.

(** ** The parser ([parser.py]) *)

(** The messages the parser prints before [exit(1)]. *)
Inductive ConfigError : Type :=
| InvalidConfiguration
| MissingCommandsKey
| ExpectedCommandInList (item : yaml)
| UnexpectedKeys (keys : list string)
| ExpectedStringDesc (value : yaml).

(** Exceptions the Python run time raises on an ill-shaped value. *)
Inductive PyError : Type := TypeError | ValueError | AttributeError | KeyError.

(** How a parsing call ends: with a value; with a message and [exit(1)];
    with a Python exception; or on a document [NotEmbedded] here, one that
    gives [ensure_env] or [set_env] members that are not strings. *)
Inductive presult (A : Type) : Type :=
| POk (a : A)
| PExit (e : ConfigError)
| PRaise (e : PyError)
| NotEmbedded.
Arguments POk {A} a.
Arguments PExit {A} e.
Arguments PRaise {A} e.
Arguments NotEmbedded {A}.

Definition pbind {A B} (m : presult A) (k : A -> presult B) : presult B :=
  match m with
  | POk a => k a
  | PExit e => PExit e
  | PRaise e => PRaise e
  | NotEmbedded => NotEmbedded
  end.

Declare Scope parse_scope.
Delimit Scope parse_scope with parse.
Notation "x <- m ;; k" := (pbind m (fun x => k))
  (at level 100, m at next level, right associativity) : parse_scope.

Definition is_hashable (v : yaml) : bool :=
  match v with YList _ | YMap _ => false | _ => true end.

(** The strings of a list whose members are all strings. *)
Fixpoint all_strings (l : list yaml) : option (list string) :=
  match l with
  | [] => Some []
  | YStr s :: r => option_map (cons s) (all_strings r)
  | _ => None
  end.

Fixpoint dedup_strings (l : list string) : list string :=
  match l with
  | [] => []
  | s :: r => s :: List.filter (fun t => negb (String.eqb s t)) (dedup_strings r)
  end.

Fixpoint chars (s : string) : list string :=
  match s with
  | EmptyString => []
  | String c r => String c EmptyString :: chars r
  end.

(** [set(v)]. A scalar other than a string is not iterable, a list or a
    mapping inside the list is not hashable. The members are listed
    without repetition. Python iterates a set in an order it takes from
    the hashes of the members, which differ from run to run; the list
    here has them in the order of first occurrence, as one of the orders
    a run can have, and no statement below rests on which it is. *)
Definition py_set (v : yaml) : presult (list string) :=
  match v with
  | YList l =>
      if forallb is_hashable l then
        match all_strings l with
        | Some ss => POk (dedup_strings ss)
        | None => NotEmbedded
        end
      else PRaise TypeError
  | YStr s => POk (dedup_strings (chars s))
  | YMap d => POk (PyDict.keys d)
  | _ => PRaise TypeError
  end.

Fixpoint all_string_values (d : list (string * yaml)) : option (list (string * string)) :=
  match d with
  | [] => Some []
  | (k, YStr s) :: r => option_map (cons (k, s)) (all_string_values r)
  | _ => None
  end.

(** [dict(v)]. *)
Definition py_dict (v : yaml) : presult (list (string * string)) :=
  match v with
  | YMap d =>
      match all_string_values d with
      | Some kvs => POk kvs
      | None => NotEmbedded
      end
  | YList [] => POk []
  | YList _ => NotEmbedded
  | YStr "" => POk []
  | YStr _ => PRaise ValueError
  | _ => PRaise TypeError
  end.

(** [CommandData: TypeAlias = str | list | dict]: the shapes
    [_parse_command] has a case for. *)
Definition is_CommandData (v : yaml) : bool :=
  match v with YStr _ | YList _ | YMap _ => true | _ => false end.

Section Parser.

(** [self.file_path], and [Path(s).resolve()], which asks the file
    system and the current directory. *)
Variable file_path : Path.
Variable path_resolve : string -> Path.

(** [ConfigParser.resolve_cwd]. *)
Definition resolve_cwd (cwd : string) : Path :=
  if PyStr.startswith (PyStr.strip cwd) "$THIS_DIR" then
    Pathlib.parent (Pathlib.div file_path (PyStr.removeprefix cwd "$THIS_DIR"))
  else path_resolve cwd.

(** [self.resolve_cwd(cwd) if cwd else None]: a value that is true and
    no string has no [strip] method. *)
Definition cwd_field (cwd : yaml) : presult (option Path) :=
  if py_bool cwd then
    match cwd with
    | YStr s => POk (Some (resolve_cwd s))
    | _ => PRaise AttributeError
    end
  else POk None.

(** The [for item in cmd_data] loop of the list case, over the items
    paired with the result of [_parse_command] on them. *)
Fixpoint list_loop (items : list (yaml * presult Node)) (commands : list Node)
  : presult (list Node) :=
  match items with
  | [] => POk commands
  | (item, r) :: rest =>
      (sub_cmd <- r ;;
       if is_Command sub_cmd then list_loop rest (commands ++ [sub_cmd])
       else PExit (ExpectedCommandInList item))%parse
  end.

Definition list_case (items : list (yaml * presult Node)) : presult Node :=
  (commands <- list_loop items [] ;; POk (new_ListCommands commands))%parse.

(** The keys [pop]ped in the command-object case. *)
Definition object_rest (cmd_data : list (string * yaml)) : list (string * yaml) :=
  PyDict.pop "cmd" (PyDict.pop "cwd" (PyDict.pop "throw" (PyDict.pop "set_env"
    (PyDict.pop "ensure_env" (PyDict.pop "desc" cmd_data))))).

(** The command-object case; [parsed_cmd] is [_parse_command] on the
    value under ["cmd"]. The code pops the keys out of [cmd_data] itself;
    in a tree nobody reads that mapping again, so the case is written on
    the mapping as it comes in, with [object_rest] for what is left. *)
Definition object_case (cmd_data : list (string * yaml)) (parsed_cmd : presult Node)
  : presult Node :=
  (let desc := PyDict.getd "desc" cmd_data (YStr "") in
   ensure_env <- py_set (PyDict.getd "ensure_env" cmd_data (YList [])) ;;
   set_env <- py_dict (PyDict.getd "set_env" cmd_data (YMap [])) ;;
   let throw := PyDict.getd "throw" cmd_data YNull in
   let cwd := PyDict.getd "cwd" cmd_data YNull in
   cmd <- parsed_cmd ;;
   let rest := object_rest cmd_data in
   if (0 <? length rest)%nat then PExit (UnexpectedKeys (PyDict.keys rest))
   else
     cwd' <- cwd_field cwd ;;
     POk (CommandObj desc cmd cwd' ensure_env set_env throw))%parse.

(** The [for key, value in cmd_data.items()] loop of the registry case,
    over the items paired with the result of [_parse_command] on the
    value; [desc] and [commands] are the fields of [reg] so far. *)
Fixpoint registry_loop (items : list (string * (yaml * presult Node)))
    (desc : string) (commands : list (string * Node)) : presult Node :=
  match items with
  | [] => POk (CommandRegistry desc commands)
  | (key, (value, r)) :: rest =>
      (cmd <- r ;;
       if String.eqb key "desc" then
         match cmd with
         | SimpleCommand s => registry_loop rest s commands
         | _ => PExit (ExpectedStringDesc value)
         end
       else registry_loop rest desc (PyDict.set key cmd commands))%parse
  end.

(** [ConfigParser._parse_command]. *)
Fixpoint _parse_command (cmd_data : yaml) : presult Node :=
  match cmd_data with
  | YStr s => POk (SimpleCommand s)
  | YList items =>
      list_case
        ((fix each (l : list yaml) : list (yaml * presult Node) :=
            match l with
            | [] => []
            | item :: r => (item, _parse_command item) :: each r
            end) items)
  | YMap d =>
      let parsed :=
        (fix each (l : list (string * yaml)) : list (string * (yaml * presult Node)) :=
           match l with
           | [] => []
           | (key, value) :: r => (key, (value, _parse_command value)) :: each r
           end) d in
      if PyDict.has "throw" d && (length d =? 1)%nat then
        POk (ThrowConfig (PyDict.getd "throw" d YNull))
      else if PyDict.has "desc" d && (length d =? 1)%nat then
        POk (DescConfig (PyDict.getd "desc" d YNull))
      else if PyDict.has "cmd" d then
        object_case d
          (match PyDict.get "cmd" parsed with
           | Some (_, r) => r
           | None => PRaise KeyError
           end)
      else registry_loop parsed "" []
  | YNull | YBool _ | YInt _ => POk PyNone
  end.

(** The values of a list, each with its parse. *)
Definition parse_each (l : list yaml) : list (yaml * presult Node) :=
  map (fun item => (item, _parse_command item)) l.

(** The items of a mapping, each value with its parse. *)
Definition parse_items (d : list (string * yaml)) : list (string * (yaml * presult Node)) :=
  map (fun kv => (fst kv, (snd kv, _parse_command (snd kv)))) d.

(** The loop of [ConfigParser.parse] over the top-level commands. *)
Fixpoint parse_loop (items : list (string * yaml)) (commands : list (string * Node))
  : presult (list (string * Node)) :=
  match items with
  | [] => POk commands
  | (cmd_name, cmd_data) :: rest =>
      (cmd <- _parse_command cmd_data ;;
       parse_loop rest (PyDict.set cmd_name cmd commands))%parse
  end.

(** [ConfigParser.parse], from the loaded document on. *)
Definition parse (config_data : yaml) : presult RunConfig :=
  match config_data with
  | YMap d =>
      if negb (PyDict.has "commands" d) then PExit MissingCommandsKey
      else
        match PyDict.getd "commands" d YNull with
        | YMap cmds =>
            (commands <- parse_loop cmds [] ;;
             POk (mkRunConfig (CommandRegistry "" commands)))%parse
        | _ => PRaise AttributeError
        end
  | _ => PExit InvalidConfiguration
  end.

End Parser.

(** ** The executor ([types.py]) *)

(** The lines the executor prints. *)
Inductive Message : Type :=
| MissingCommands
| UnknownCommand (cmd_name : string)
| AvailableCommands (names : list string)
| MissingEnvironmentVariable (env_var_name : string)
| WhileExecutingCommand (cmd : Node).

(** What travels up the call stack. [exit(n)] raises [SystemExit], which
    is no subclass of [Exception]; [CommandFailure] and the run-time
    errors are. *)
Inductive Exn : Type :=
| SystemExit (code : Z)
| CommandFailure (status : Z)
| PyException (e : PyError).

(** [isinstance(e, Exception)]: what [except Exception] catches. *)
Definition is_Exception (e : Exn) : bool :=
  match e with SystemExit _ => false | _ => true end.

(** How a call ends. [OutOfFuel] belongs to the embedding only: the
    recursion of [execute_command] is counted down on a natural number. *)
Inductive Outcome (A : Type) : Type :=
| Return (a : A)
| Raise (e : Exn)
| OutOfFuel.
Arguments Return {A} a.
Arguments Raise {A} e.
Arguments OutOfFuel {A}.

(** The fields of [ExecCtx] and the part of the process the executor
    acts on. [started] lists the subprocesses started so far: the command
    line and the working directory of the process at that moment. *)
Record State : Type := mkState {
  ctx_args : list string;
  ctx_throw : yaml;
  ctx_cwd : option Path;
  environ : gmap string string;
  process_cwd : Path;
  stdout : list Message;
  started : list (string * Path)
}.

Definition set_ctx_args (a : list string) (st : State) : State :=
  mkState a (ctx_throw st) (ctx_cwd st) (environ st) (process_cwd st) (stdout st) (started st).
Definition set_ctx_throw (t : yaml) (st : State) : State :=
  mkState (ctx_args st) t (ctx_cwd st) (environ st) (process_cwd st) (stdout st) (started st).
Definition set_ctx_cwd (c : option Path) (st : State) : State :=
  mkState (ctx_args st) (ctx_throw st) c (environ st) (process_cwd st) (stdout st) (started st).
Definition set_environ (e : gmap string string) (st : State) : State :=
  mkState (ctx_args st) (ctx_throw st) (ctx_cwd st) e (process_cwd st) (stdout st) (started st).
Definition set_process_cwd (p : Path) (st : State) : State :=
  mkState (ctx_args st) (ctx_throw st) (ctx_cwd st) (environ st) p (stdout st) (started st).

(** [print(...)], one message per line. *)
Definition print (ms : list Message) (st : State) : State :=
  mkState (ctx_args st) (ctx_throw st) (ctx_cwd st) (environ st) (process_cwd st)
          (stdout st ++ ms) (started st).

(** The module [sh] ([from . import sh]) is not among the sources. Its
    functions are written after the collaborator contracts of the
    specification: an environment accessor [set(name, value)],
    [unset(name)], [has(name) -> bool], and a shell executor that runs a
    command line and obtains an exit status. *)
Module sh.

(** Modelled from the spec: [sh.set_env], absent from the sources; it
    sets the variable in the environment of the process. *)
Definition set_env (key value : string) (st : State) : State :=
  set_environ (<[key := value]> (environ st)) st.

(** Modelled from the spec: [sh.unset_env], absent from the sources; it
    removes the variable from the environment of the process. *)
Definition unset_env (key : string) (st : State) : State :=
  set_environ (delete key (environ st)) st.

(** Modelled from the spec: [sh.has_env], absent from the sources; it
    tells whether the variable is present in the environment. *)
Definition has_env (name : string) (st : State) : bool :=
  match environ st !! name with Some _ => true | None => false end.

(** Modelled from the spec: [sh.cd], absent from the sources; it changes
    the actual working directory of the process. *)
Definition cd (path : Path) (st : State) : State := set_process_cwd path st.

Section Cmd.
(** The exit status of a command line, as the shell decides it from
    everything the state records. *)
Variable shell : string -> State -> Z.

(** Modelled from the spec: [sh.cmd], absent from the sources; it runs
    the command line and obtains an exit status; if the status is
    non-zero and [throw] is true it fails with [CommandFailure(status)],
    otherwise it continues whatever the status. The failure is an
    ordinary exception ([__main__.py] wraps calls of [sh.cmd] in
    [suppress(Exception)]), and nothing is printed. *)
Definition cmd (command : string) (throw : yaml) (st : State)
  : Outcome unit * State :=
  let status := shell command st in
  let st' := mkState (ctx_args st) (ctx_throw st) (ctx_cwd st) (environ st)
                     (process_cwd st) (stdout st)
                     (started st ++ [(command, process_cwd st)]) in
  if negb (Z.eqb status 0) && py_bool throw
  then (Raise (CommandFailure status), st')
  else (Return tt, st').
End Cmd.

End sh.

(** [ExecCtx.get_command]. The lookup of [cmd_name] in [reg.commands] is
    written out as a walk over the items, so that the call on the
    registry found there is a call on a part of [reg]; the equation
    [get_command_eq] below states it with [PyDict.get]. *)
Fixpoint get_command (reg : Node) (st : State) {struct reg} : Outcome Node * State :=
  match reg with
  | CommandRegistry _ commands =>
      match ctx_args st with
      | [] =>
          (Raise (SystemExit 1),
           print [MissingCommands; AvailableCommands (PyDict.keys commands)] st)
      | cmd_name :: rest =>
          let st' := set_ctx_args rest st in
          (fix lookup (l : list (string * Node)) : Outcome Node * State :=
             match l with
             | [] =>
                 (Raise (SystemExit 1),
                  print [UnknownCommand cmd_name;
                         AvailableCommands (PyDict.keys commands)] st')
             | (k, next_cmd) :: r =>
                 if String.eqb k cmd_name then
                   if is_CommandRegistry next_cmd then get_command next_cmd st'
                   else (Return next_cmd, st')
                 else lookup r
             end) commands
      end
  | _ => (Raise (PyException AttributeError), st)
  end.

(** A [for] loop whose body may raise: the first item that does not
    return ends the loop. *)
Fixpoint for_each {A} (body : A -> State -> Outcome unit * State)
    (items : list A) (st : State) : Outcome unit * State :=
  match items with
  | [] => (Return tt, st)
  | x :: rest =>
      match body x st with
      | (Return _, st') => for_each body rest st'
      | r => r
      end
  end.

(** The number of nested calls of [execute_command] a node can need. *)
Fixpoint height (cmd : Node) : nat :=
  match cmd with
  | ListCommands _ commands =>
      S ((fix hs (l : list Node) : nat :=
            match l with [] => 0 | c :: r => Nat.max (height c) (hs r) end) commands)
  | CommandObj _ inner _ _ _ _ => S (height inner)
  | CommandRegistry _ commands =>
      S ((fix hs (l : list (string * Node)) : nat :=
            match l with [] => 0 | (_, c) :: r => Nat.max (height c) (hs r) end) commands)
  | _ => 1
  end.

Section Executor.

Variable shell : string -> State -> Z.

(** The loop over [cmd.ensure_env] of the [CommandObj] case. *)
Definition ensure_env_body (cmd : Node) (env_var_name : string) (st : State)
  : Outcome unit * State :=
  if negb (sh.has_env env_var_name st) then
    (Raise (SystemExit 1),
     print [MissingEnvironmentVariable env_var_name; WhileExecutingCommand cmd] st)
  else (Return tt, st).

(** The [finally] block of both scopes. *)
Definition restore_ctx (throw : yaml) (cwd : option Path) (st : State) : State :=
  set_ctx_cwd cwd (set_ctx_throw throw st).

(** [RunConfig.execute_command]. *)
Fixpoint execute_command (fuel : nat) (cmd : Node) (st : State) {struct fuel}
  : Outcome unit * State :=
  match fuel with
  | O => (OutOfFuel, st)
  | S fuel' =>
      match cmd with
      | ThrowConfig t => (Return tt, set_ctx_throw t st)
      | DescConfig _ => (Return tt, st)
      | CwdConfig c => (Return tt, set_ctx_cwd (Some c) st)
      | SimpleCommand s => sh.cmd shell s (ctx_throw st) st
      | ListCommands _ commands =>
          let throw := ctx_throw st in
          let cwd := ctx_cwd st in
          let '(o, st1) := for_each (execute_command fuel') commands st in
          (o, restore_ctx throw cwd st1)
      | CommandObj _ inner cmd_cwd ensure_env set_env cmd_throw =>
          let st1 := fold_left (fun s kv => sh.set_env (fst kv) (snd kv) s) set_env st in
          match for_each (ensure_env_body cmd) ensure_env st1 with
          | (Return _, st2) =>
              let throw := ctx_throw st2 in
              let cwd := ctx_cwd st2 in
              let st3 :=
                set_ctx_throw
                  (match cmd_throw with YNull => ctx_throw st2 | t => t end) st2 in
              let st4 :=
                set_ctx_cwd
                  (match cmd_cwd with Some c => Some c | None => ctx_cwd st3 end) st3 in
              let '(o, st6) :=
                let st5 :=
                  match ctx_cwd st4 with Some c => sh.cd c st4 | None => st4 end in
                if is_Command inner then execute_command fuel' inner st5
                else if is_CommandRegistry inner then
                  match get_command inner st5 with
                  | (Return sub_cmd, st5') => execute_command fuel' sub_cmd st5'
                  | (Raise e, st5') => (Raise e, st5')
                  | (OutOfFuel, st5') => (OutOfFuel, st5')
                  end
                else (Return tt, st5) in
              let st7 := restore_ctx throw cwd st6 in
              match o with
              | Return _ =>
                  (Return tt,
                   fold_left (fun s key => sh.unset_env key s) (PyDict.keys set_env) st7)
              | _ => (o, st7)
              end
          | r => r
          end
      | PyNone | CommandRegistry _ _ => (Return tt, st)
      end
  end.

(** [ExecCtx(args=args, cwd=Path.cwd())]. *)
Definition new_ExecCtx (args : list string) (st : State) : State :=
  set_ctx_cwd (Some (process_cwd st)) (set_ctx_throw (YBool false) (set_ctx_args args st)).

(** The body of the [try] of [RunConfig.execute]. The count handed to
    [execute_command] is the height of the registry, which the command
    found in it cannot reach ([execute_body_returns] below). *)
Definition execute_body (self : RunConfig) (args : list string) (st : State)
  : Outcome unit * State :=
  match get_command (reg self) (new_ExecCtx args st) with
  | (Return cmd, st') => execute_command (height (reg self)) cmd st'
  | (Raise e, st') => (Raise e, st')
  | (OutOfFuel, st') => (OutOfFuel, st')
  end.

(** [RunConfig.execute]: [except Exception: pass]. *)
Definition execute (self : RunConfig) (args : list string) (st : State)
  : Outcome unit * State :=
  match execute_body self args st with
  | (Raise e, st') => if is_Exception e then (Return tt, st') else (Raise e, st')
  | r => r
  end.

(** The exit status of the process when [main] ends in [execute]: [main]
    returns after it, and an interpreter whose main module returns
    leaves with status 0; a [SystemExit] that reaches the top leaves
    with its code, any other exception with 1. *)
Definition exit_status (o : Outcome unit) : option Z :=
  match o with
  | Return _ => Some 0%Z
  | Raise (SystemExit code) => Some code
  | Raise _ => Some 1%Z
  | OutOfFuel => None
  end.

End Executor.

(** ** The stages of the [CommandObj] case, named for the lemmas

    [execute_command_obj] below states that the case is their
    composition. *)

(** The loop over [cmd.set_env.items()]. *)
Definition apply_set_env (set_env : list (string * string)) (st : State) : State :=
  fold_left (fun s kv => sh.set_env (fst kv) (snd kv) s) set_env st.

(** The loop over [cmd.set_env.keys()] after the [finally] block. *)
Definition remove_set_env (set_env : list (string * string)) (st : State) : State :=
  fold_left (fun s key => sh.unset_env key s) (PyDict.keys set_env) st.

(** The two assignments to [ctx] before the [try], and the [sh.cd] that
    opens it. *)
Definition enter_scope (cmd_throw : yaml) (cmd_cwd : option Path) (st : State) : State :=
  let st3 := set_ctx_throw (match cmd_throw with YNull => ctx_throw st | t => t end) st in
  let st4 := set_ctx_cwd (match cmd_cwd with Some c => Some c | None => ctx_cwd st3 end) st3 in
  match ctx_cwd st4 with Some c => sh.cd c st4 | None => st4 end.

(** The rest of the [try] block. *)
Definition scope_body (shell : string -> State -> Z) (fuel : nat) (inner : Node) (st : State)
  : Outcome unit * State :=
  if is_Command inner then execute_command shell fuel inner st
  else if is_CommandRegistry inner then
    match get_command inner st with
    | (Return sub_cmd, st') => execute_command shell fuel sub_cmd st'
    | (Raise e, st') => (Raise e, st')
    | (OutOfFuel, st') => (OutOfFuel, st')
    end
  else (Return tt, st).

(** The [finally] block, and after it, when nothing was raised, the loop
    that unsets the variables. *)
Definition leave_scope (set_env : list (string * string)) (throw : yaml) (cwd : option Path)
    (r : Outcome unit * State) : Outcome unit * State :=
  let st7 := restore_ctx throw cwd (snd r) in
  match fst r with
  | Return _ => (Return tt, remove_set_env set_env st7)
  | o => (o, st7)
  end.

(** The first line of an error report. *)
Definition announces_error (m : Message) : bool :=
  match m with
  | MissingCommands | UnknownCommand _ | MissingEnvironmentVariable _ => true
  | _ => false
  end.

(** What a call did to the standard output, seen from its outcome: a call
    that ends in [SystemExit] has code 1 and has printed an error report;
    any other call has printed nothing. *)
Definition announced {A} (st : State) (r : Outcome A * State) : Prop :=
  match fst r with
  | Raise (SystemExit code) =>
      code = 1%Z /\
      exists m ms, stdout (snd r) = stdout st ++ m :: ms /\ announces_error m = true
  | _ => stdout (snd r) = stdout st
  end.

(** ** Properties of nodes used in the statements *)

(** No [CommandObj] anywhere in the node: executing it never calls
    [sh.cd]. *)
Fixpoint scope_free (cmd : Node) : bool :=
  match cmd with
  | CommandObj _ _ _ _ _ _ => false
  | ListCommands _ commands =>
      (fix all (l : list Node) : bool :=
         match l with [] => true | c :: r => scope_free c && all r end) commands
  | CommandRegistry _ commands =>
      (fix all (l : list (string * Node)) : bool :=
         match l with [] => true | (_, c) :: r => scope_free c && all r end) commands
  | _ => true
  end.

(** Some [CommandObj] in the node has [key] in its [set_env]. *)
Fixpoint sets_key (key : string) (cmd : Node) : bool :=
  match cmd with
  | CommandObj _ inner _ _ set_env _ => PyDict.has key set_env || sets_key key inner
  | ListCommands _ commands =>
      (fix any (l : list Node) : bool :=
         match l with [] => false | c :: r => sets_key key c || any r end) commands
  | CommandRegistry _ commands =>
      (fix any (l : list (string * Node)) : bool :=
         match l with [] => false | (_, c) :: r => sets_key key c || any r end) commands
  | _ => false
  end.

(** ** Statements of the specification, as written there

    Each is the reading of one sentence of the specification that the
    code does not satisfy; the lemmas named [*_fails] refute them at a
    concrete input. *)

Module Spec.

(** "after execute returns, ctx.workingDir, ctx.throwOnFailure and the
    process environment equal their pre-call state". *)
Definition scoped_frame (shell : string -> State -> Z) (fuel : nat)
    (cmd : Node) (st : State) : Prop :=
  let st' := snd (execute_command shell fuel cmd st) in
  ctx_cwd st' = ctx_cwd st /\ ctx_throw st' = ctx_throw st /\ environ st' = environ st.

(** "every run-time error raised during run is caught at the single
    outermost boundary and the process terminates with a non-zero exit
    status". *)
Definition error_caught_exits_nonzero (shell : string -> State -> Z)
    (config : RunConfig) (args : list string) (st : State) : Prop :=
  forall e st', execute_body shell config args st = (Raise e, st') ->
    is_Exception e = true /\
    exists code, exit_status (fst (execute shell config args st)) = Some code /\ code <> 0%Z.

(** "a scope that changes the process's working directory restores the
    pre-scope directory before returning". *)
Definition restores_process_cwd (shell : string -> State -> Z) (fuel : nat)
    (cmd : Node) (st : State) : Prop :=
  process_cwd (snd (execute_command shell fuel cmd st)) = process_cwd st.

(** "the constructor removes at most one leading DescDirective; one that
    is not the leading item is left in place". *)
Definition hoists_leading_only (commands : list Node) : Prop :=
  new_ListCommands commands =
    match commands with
    | DescConfig d :: rest => ListCommands d rest
    | _ => ListCommands (YStr "") commands
    end.

(** "a mapping whose only key is throw yields ThrowDirective with
    bool(value)". *)
Definition throw_is_bool (file_path : Path) (path_resolve : string -> Path)
    (value : yaml) : Prop :=
  _parse_command file_path path_resolve (YMap [("throw", value)])
    = POk (ThrowConfig (YBool (py_bool value))).

(** "with the configuration file at /etc/run.yml, resolveCwd of
    $THIS_DIR/sub is /etc/sub". *)
Definition this_dir_sub (path_resolve : string -> Path) : Prop :=
  resolve_cwd (Pathlib.of_string "/etc/run.yml") path_resolve "$THIS_DIR/sub"
    = Pathlib.of_string "/etc/sub".

(** "for every sequence executed with throwOnFailure true, a Literal
    whose subprocess returns a non-zero status stops the sequence; with
    throwOnFailure false, all items execute regardless of exit status":
    the flag is the one the sequence is entered with, and a loop in which
    all items execute is a loop that reaches its end. *)
Definition sequence_follows_entry_throw (shell : string -> State -> Z) (fuel : nat)
    (d : yaml) (commands : list Node) (st : State) : Prop :=
  (py_bool (ctx_throw st) = true ->
   forall pre s post st1,
     commands = pre ++ SimpleCommand s :: post ->
     for_each (execute_command shell fuel) pre st = (Return tt, st1) ->
     shell s st1 <> 0%Z ->
     fst (execute_command shell (S fuel) (ListCommands d commands) st)
     = Raise (CommandFailure (shell s st1)))
  /\ (py_bool (ctx_throw st) = false ->
      fst (for_each (execute_command shell fuel) commands st) = Return tt).

End Spec.

(** ** Concrete inputs of the examples *)

Module Ex.

Definition config_path : Path := Pathlib.of_string "/etc/run.yml".
Definition home : Path := Pathlib.of_string "/home".
Definition tmp : Path := Pathlib.of_string "/tmp".

(** A process in [/home] with an empty environment. *)
Definition fresh : State := mkState [] (YBool false) (Some home) ∅ home [] [].

(** The same with [K=old] in the environment. *)
Definition with_K : State := set_environ {[ "K" := "old" ]} fresh.

(** A shell in which [false] exits with 1 and everything else with 0. *)
Definition shell (command : string) (st : State) : Z :=
  if String.eqb command "false" then 1%Z else 0%Z.

(** [{cmd: "true", set_env: {K: new}}]. *)
Definition scoped_ok : Node :=
  CommandObj (YStr "") (SimpleCommand "true") None [] [("K", "new")] YNull.

(** [{cmd: "false", set_env: {K: new}, throw: true}]. *)
Definition scoped_failing : Node :=
  CommandObj (YStr "") (SimpleCommand "false") None [] [("K", "new")] (YBool true).

(** [{cmd: "true", cwd: /tmp}]. *)
Definition scoped_in_tmp : Node :=
  CommandObj (YStr "") (SimpleCommand "true") (Some tmp) [] [] YNull.

(** [{b: {c: "echo hi"}}]. *)
Definition A_doc : yaml := YMap [("b", YMap [("c", YStr "echo hi")])].
Definition A : Node :=
  CommandRegistry "" [("b", CommandRegistry "" [("c", SimpleCommand "echo hi")])].

(** [{a: [{throw: true}, "false"]}]. *)
Definition failing_config : RunConfig :=
  mkRunConfig (CommandRegistry ""
    [("a", ListCommands (YStr "") [ThrowConfig (YBool true); SimpleCommand "false"])]).

Definition system : RunConfig :=
  mkRunConfig (CommandRegistry "" [("x", SimpleCommand "1"); ("y", SimpleCommand "2")]).
Definition project : RunConfig :=
  mkRunConfig (CommandRegistry "" [("x", SimpleCommand "3")]).

(** Two registries under the same name. *)
Definition system_nested : RunConfig :=
  mkRunConfig (CommandRegistry ""
    [("x", CommandRegistry "" [("a", SimpleCommand "1"); ("b", SimpleCommand "2")])]).
Definition project_nested : RunConfig :=
  mkRunConfig (CommandRegistry "" [("x", CommandRegistry "" [("a", SimpleCommand "3")])]).

(** [{deploy: {cmd: "true", ensure_env: [TOKEN]}}]. *)
Definition needs_token : Node :=
  CommandObj (YStr "") (SimpleCommand "true") None ["TOKEN"] [] YNull.
Definition token_config : RunConfig :=
  mkRunConfig (CommandRegistry "" [("deploy", needs_token)]).

Definition false_then_echo : list Node :=
  [SimpleCommand "false"; SimpleCommand "echo should-not-run"].

End Ex.

(** ** The rest of [types.py] and of [__main__.py] *)

(** What [CommandRegistry.print_usage] prints: the header, then one line
    per child, the name padded and the description of the child. The
    colour codes are left out, and the description is kept as the value
    the line is formatted from. *)
Inductive UsageLine : Type :=
| CommandsHeader
| CommandLine (cmd_name : string) (desc : yaml).

(** [s.ljust(width)]. *)
Definition ljust (s : string) (width : nat) : string :=
  String.append s (string_of_list_ascii (repeat " "%char (width - String.length s))).

(** [cmd.desc]: the field, or its default [""] where the parser never
    gives it; [None] has no such attribute. *)
Definition desc_of (cmd : Node) : option yaml :=
  match cmd with
  | PyNone => None
  | ThrowConfig _ | CwdConfig _ | SimpleCommand _ => Some (YStr "")
  | DescConfig d => Some d
  | ListCommands d _ => Some d
  | CommandObj d _ _ _ _ _ => Some d
  | CommandRegistry d _ => Some (YStr d)
  end.

(** [max(len(cmd_name) for cmd_name in self.commands.keys())]: [max] of
    an empty sequence raises [ValueError]. *)
Definition max_cmd_len (names : list string) : option nat :=
  match names with
  | [] => None
  | _ => Some (fold_right Nat.max 0 (map String.length names))
  end.

(** The loop of [print_usage]; the [AttributeError] of a child that is
    [None] leaves the loop, and [except Exception: pass] drops it. *)
Fixpoint usage_lines (max_cmd_len : nat) (items : list (string * Node)) : list UsageLine :=
  match items with
  | [] => []
  | (cmd_name, cmd) :: rest =>
      match desc_of cmd with
      | Some d => CommandLine (ljust cmd_name max_cmd_len) d :: usage_lines max_cmd_len rest
      | None => []
      end
  end.

(** [CommandRegistry.print_usage]. *)
Definition print_usage (self : Node) : list UsageLine :=
  CommandsHeader ::
    match max_cmd_len (PyDict.keys (reg_commands self)) with
    | Some w => usage_lines w (reg_commands self)
    | None => []
    end.

(** How [_load_config] ends: with a configuration, or with the message
    "No configuration file found" and [exit(1)]. *)
Inductive LoadResult : Type :=
| Loaded (config : RunConfig)
| NoConfigurationFile.

(** [_load_config], from the results of [_load_system_config] and
    [_load_local_config] on; an instance of [RunConfig] is always true. *)
Definition _load_config (system_config local_config : option RunConfig) : LoadResult :=
  match system_config with
  | Some sys =>
      match local_config with
      | Some loc => Loaded (override sys loc)
      | None => Loaded sys
      end
  | None =>
      match local_config with
      | Some loc => Loaded loc
      | None => NoConfigurationFile
      end
  end.

(** How the choice of an editor in [_run_edit] ends: with the editor, or
    with the message "No editor found" and [exit(1)]. *)
Inductive EditorChoice : Type :=
| Editor (editor : string)
| NoEditorFound.

(** The first part of [_run_edit]. [EDITOR] is [sh.get_env("EDITOR")];
    [which name] tells whether [sh.which(name)] is true. The [if] on
    [vim] stands alone; the [if] / [elif] / [else] that follows it is
    on [nvim] and [nano]. *)
Definition _run_edit_editor (EDITOR : option string) (which : string -> bool)
  : EditorChoice :=
  match EDITOR with
  | Some editor => Editor editor
  | None =>
      let editor : option string := None in
      let editor := if which "vim" then Some "vim" else editor in
      if which "nvim" then Editor "nvim"
      else if which "nano" then Editor "nano"
      else NoEditorFound
  end.

(** ** More properties of documents and nodes *)

(** Induction over documents that reaches the items of a list and the
    values of a mapping. *)
Section YamlInduction.
Variable P : yaml -> Prop.
Hypothesis HNull : P YNull.
Hypothesis HBool : forall b, P (YBool b).
Hypothesis HInt : forall z, P (YInt z).
Hypothesis HStr : forall s, P (YStr s).
Hypothesis HList : forall items, List.Forall P items -> P (YList items).
Hypothesis HMap : forall items, List.Forall (fun kv => P (snd kv)) items -> P (YMap items).

Fixpoint yaml_nested_ind (v : yaml) : P v :=
  match v with
  | YNull => HNull
  | YBool b => HBool b
  | YInt z => HInt z
  | YStr s => HStr s
  | YList items =>
      HList items
        ((fix all (l : list yaml) : List.Forall P l :=
            match l with
            | [] => @List.Forall_nil _ P
            | x :: r => @List.Forall_cons _ P x r (yaml_nested_ind x) (all r)
            end) items)
  | YMap items =>
      HMap items
        ((fix all (l : list (string * yaml)) : List.Forall (fun kv => P (snd kv)) l :=
            match l with
            | [] => @List.Forall_nil _ _
            | (k, x) :: r =>
                @List.Forall_cons _ (fun kv => P (snd kv)) (k, x) r
                  (yaml_nested_ind x) (all r)
            end) items)
  end.
End YamlInduction.

(** Every member of every [ListCommands] in the node is an instance of
    [Command], and the node holds no [CwdConfig]. *)
Fixpoint sequences_hold_commands (cmd : Node) : bool :=
  match cmd with
  | CwdConfig _ => false
  | ListCommands _ commands =>
      (fix all (l : list Node) : bool :=
         match l with
         | [] => true
         | c :: r => is_Command c && sequences_hold_commands c && all r
         end) commands
  | CommandObj _ inner _ _ _ _ => sequences_hold_commands inner
  | CommandRegistry _ commands =>
      (fix all (l : list (string * Node)) : bool :=
         match l with
         | [] => true
         | (_, c) :: r => sequences_hold_commands c && all r
         end) commands
  | _ => true
  end.

(** The names of the children of every registry in the node are pairwise
    different, and none of them is [desc] or [cmd]. *)
Fixpoint registries_named_well (cmd : Node) : Prop :=
  match cmd with
  | ListCommands _ commands =>
      (fix all (l : list Node) : Prop :=
         match l with [] => True | c :: r => registries_named_well c /\ all r end) commands
  | CommandObj _ inner _ _ _ _ => registries_named_well inner
  | CommandRegistry _ commands =>
      List.NoDup (PyDict.keys commands)
      /\ ~ In "desc" (PyDict.keys commands)
      /\ ~ In "cmd" (PyDict.keys commands)
      /\ (fix all (l : list (string * Node)) : Prop :=
            match l with
            | [] => True
            | (_, c) :: r => registries_named_well c /\ all r
            end) commands
  | _ => True
  end.

(** The command line [s] is the text of some [SimpleCommand] in the
    node. *)
Fixpoint has_literal (s : string) (cmd : Node) : bool :=
  match cmd with
  | SimpleCommand s' => String.eqb s' s
  | ListCommands _ commands =>
      (fix any (l : list Node) : bool :=
         match l with [] => false | c :: r => has_literal s c || any r end) commands
  | CommandObj _ inner _ _ _ _ => has_literal s inner
  | CommandRegistry _ commands =>
      (fix any (l : list (string * Node)) : bool :=
         match l with [] => false | (_, c) :: r => has_literal s c || any r end) commands
  | _ => false
  end.

(** No [ThrowConfig] and no [CommandObj] in the node gives a [throw]
    that is true. *)
Fixpoint never_throws (cmd : Node) : bool :=
  match cmd with
  | ThrowConfig t => negb (py_bool t)
  | ListCommands _ commands =>
      (fix all (l : list Node) : bool :=
         match l with [] => true | c :: r => never_throws c && all r end) commands
  | CommandObj _ inner _ _ _ t => negb (py_bool t) && never_throws inner
  | CommandRegistry _ commands =>
      (fix all (l : list (string * Node)) : bool :=
         match l with [] => true | (_, c) :: r => never_throws c && all r end) commands
  | _ => true
  end.

(** The call did not end in a command failure, and left [ctx.throw]
    false. *)
Definition calm {A} (r : Outcome A * State) : Prop :=
  (forall status, fst r <> Raise (CommandFailure status))
  /\ py_bool (ctx_throw (snd r)) = false.

(** No [CommandObj] in the node wraps a registry: executing the node
    never calls [get_command]. *)
Fixpoint args_free (cmd : Node) : bool :=
  match cmd with
  | ListCommands _ commands =>
      (fix all (l : list Node) : bool :=
         match l with [] => true | c :: r => args_free c && all r end) commands
  | CommandObj _ inner _ _ _ _ => negb (is_CommandRegistry inner) && args_free inner
  | _ => true
  end.

(** From [st] to [st'] subprocesses were started, if any, only with
    command lines that are literals of the node. *)
Definition runs_within (cmd : Node) (st st' : State) : Prop :=
  exists l, started st' = started st ++ l
            /\ List.Forall (fun e => has_literal (fst e) cmd = true) l.

(** The names [path], followed from the registry [reg] through
    registries, end at the node [n], which is no registry. *)
Fixpoint resolves (path : list string) (reg n : Node) : Prop :=
  match path with
  | [] => False
  | cmd_name :: rest =>
      is_CommandRegistry reg = true /\
      match PyDict.get cmd_name (reg_commands reg) with
      | Some next_cmd =>
          if is_CommandRegistry next_cmd then resolves rest next_cmd n
          else rest = [] /\ next_cmd = n
      | None => False
      end
  end.

(** The keys the command-object case takes out of the mapping. *)
Definition is_object_key (key : string) : bool :=
  existsb (String.eqb key) ["desc"; "ensure_env"; "set_env"; "throw"; "cwd"; "cmd"].

(** The mappings of a document that have a [cmd] key, wherever they
    stand. These are the mappings that the command-object case empties
    with [pop] while it parses them. An anchor with its alias puts one
    mapping object at two places, and the tree then has two equal
    mappings there: where no two members of this list are equal, no
    mapping that the parser empties is read a second time. *)
Fixpoint cmd_mappings (v : yaml) : list yaml :=
  match v with
  | YList items => flat_map cmd_mappings items
  | YMap items =>
      (if PyDict.has "cmd" items then [v] else [])
      ++ flat_map (fun '(_, x) => cmd_mappings x) items
  | _ => []
  end.

(** More concrete inputs. *)
Module Ex2.

(** [{build: "make", test: {unit: "pytest"}, broken: true, zz: "true"}]
    as parsed: the child [broken] is bound to [None]. *)
Definition with_none : Node :=
  CommandRegistry ""
    [("build", SimpleCommand "make");
     ("test", CommandRegistry "tests" [("unit", SimpleCommand "pytest")]);
     ("broken", PyNone);
     ("zz", SimpleCommand "true")].

(** [{cmd: "make", cwd: x, colour: red, jobs: 4}]. *)
Definition object_doc : list (string * yaml) :=
  [("cmd", YStr "make"); ("cwd", YStr "x"); ("colour", YStr "red"); ("jobs", YInt 4)].

(** A process in [/home] whose context is in [/srv]. *)
Definition in_srv : State :=
  mkState [] (YBool false) (Some (Pathlib.of_string "/srv")) ∅ Ex.home [] [].

(** [[{throw: false}, "false", "echo ran"]]. *)
Definition throw_off_then_false : list Node :=
  [ThrowConfig (YBool false); SimpleCommand "false"; SimpleCommand "echo ran"].

(** [[{cmd: "false", throw: true}, "echo should-not-run"]]. *)
Definition scoped_throw_then_echo : list Node :=
  [CommandObj (YStr "") (SimpleCommand "false") None [] [] (YBool true);
   SimpleCommand "echo should-not-run"].

(** The [commands] mapping
    [{build: {cmd: "make", desc: "build it"}, test: {cmd: "pytest"}, desc: "echo"}]
    and what the parser binds its names to. *)
Definition two_objects : list (string * yaml) :=
  [("build", YMap [("cmd", YStr "make"); ("desc", YStr "build it")]);
   ("test", YMap [("cmd", YStr "pytest")]);
   ("desc", YStr "echo")].

Definition two_objects_parsed : list (string * Node) :=
  [("build", CommandObj (YStr "build it") (SimpleCommand "make") None [] [] YNull);
   ("test", CommandObj (YStr "") (SimpleCommand "pytest") None [] [] YNull);
   ("desc", SimpleCommand "echo")].

(** Only [vim] is installed. *)
Definition only_vim (name : string) : bool := String.eqb name "vim".

End Ex2.

(** * Lemmas *)

(** ** Dictionaries *)

Lemma PyDict_get_set_eq {V} (k : string) (v : V) d : PyDict.get k (PyDict.set k v d) = Some v.
Proof.
  induction d as [|[k' v'] r IH]; simpl.
  - by rewrite String.eqb_refl.
  - destruct (String.eqb k' k) eqn:E; simpl.
    + by rewrite String.eqb_refl.
    + by rewrite E.
Qed.

Lemma PyDict_get_set_ne {V} (k k0 : string) (v : V) d :
  k0 <> k -> PyDict.get k (PyDict.set k0 v d) = PyDict.get k d.
Proof.
  intros Hne. induction d as [|[k' v'] r IH]; simpl.
  - destruct (String.eqb k0 k) eqn:E; [|done]. by apply String.eqb_eq in E.
  - destruct (String.eqb k' k0) eqn:E; simpl.
    + apply String.eqb_eq in E; subst k'.
      destruct (String.eqb k0 k) eqn:E'; [|done]. by apply String.eqb_eq in E'.
    + by rewrite IH.
Qed.

Lemma PyDict_get_None_keys {V} (k : string) (d : list (string * V)) :
  PyDict.get k d = None <-> ~ In k (PyDict.keys d).
Proof.
  induction d as [|[k' v'] r IH]; simpl; [tauto|].
  destruct (String.eqb k' k) eqn:E.
  - apply String.eqb_eq in E. split; [done|]. intros H; exfalso; apply H; by left.
  - apply String.eqb_neq in E. rewrite IH. tauto.
Qed.

Lemma PyDict_get_update {V} (k : string) (d other : list (string * V)) :
  List.NoDup (PyDict.keys other) ->
  PyDict.get k (PyDict.update d other) =
    match PyDict.get k other with Some v => Some v | None => PyDict.get k d end.
Proof.
  unfold PyDict.update. revert d.
  induction other as [|[k' v'] r IH]; intros d Hnd; simpl; [done|].
  inversion Hnd as [|? ? Hnotin Hnd']; subst.
  rewrite IH by done.
  destruct (String.eqb k' k) eqn:E.
  - apply String.eqb_eq in E; subst k'.
    apply PyDict_get_None_keys in Hnotin. rewrite Hnotin.
    apply PyDict_get_set_eq.
  - apply String.eqb_neq in E. destruct (PyDict.get k r); [done|].
    by apply PyDict_get_set_ne.
Qed.

(** ** Resolution *)

(** [get_command] as the source writes it, with the lookup in the
    dictionary. *)
Lemma get_command_eq desc commands st :
  get_command (CommandRegistry desc commands) st =
    match ctx_args st with
    | [] =>
        (Raise (SystemExit 1),
         print [MissingCommands; AvailableCommands (PyDict.keys commands)] st)
    | cmd_name :: rest =>
        match PyDict.get cmd_name commands with
        | None =>
            (Raise (SystemExit 1),
             print [UnknownCommand cmd_name; AvailableCommands (PyDict.keys commands)]
                   (set_ctx_args rest st))
        | Some next_cmd =>
            if is_CommandRegistry next_cmd
            then get_command next_cmd (set_ctx_args rest st)
            else (Return next_cmd, set_ctx_args rest st)
        end
    end.
Proof.
  cbn [get_command]. destruct (ctx_args st) as [|cmd_name rest]; [done|].
  generalize (AvailableCommands (PyDict.keys commands)). intros m.
  induction commands as [|[k v] r IH]; [done|].
  cbn [PyDict.get]. destruct (String.eqb k cmd_name); [done|]. apply IH.
Qed.

(** ** The parser *)

Section ParserFacts.

Variable file_path : Path.
Variable path_resolve : string -> Path.

Local Abbreviation parse_command := (_parse_command file_path path_resolve).
Local Abbreviation each_item := (parse_each file_path path_resolve).
Local Abbreviation each_pair := (parse_items file_path path_resolve).

Lemma parse_command_list items :
  parse_command (YList items) = list_case (each_item items).
Proof.
  reflexivity.
Qed.

Lemma parse_command_map d :
  parse_command (YMap d) =
    if PyDict.has "throw" d && (length d =? 1)%nat then
      POk (ThrowConfig (PyDict.getd "throw" d YNull))
    else if PyDict.has "desc" d && (length d =? 1)%nat then
      POk (DescConfig (PyDict.getd "desc" d YNull))
    else if PyDict.has "cmd" d then
      object_case file_path path_resolve d
        (match PyDict.get "cmd" (each_pair d) with
         | Some (_, r) => r
         | None => PRaise KeyError
         end)
    else registry_loop (each_pair d) "" [].
Proof.
  cbn [_parse_command].
  assert (E : (fix each (l : list (string * yaml)) :=
                 match l with
                 | [] => []
                 | (key, value) :: r => (key, (value, parse_command value)) :: each r
                 end) d = each_pair d).
  { induction d as [|[k v] r IH]; [done|]. cbn [parse_items map fst snd]. f_equal. apply IH. }
  rewrite E. reflexivity.
Qed.

Lemma list_loop_app pre post commands :
  list_loop (pre ++ post) commands =
    pbind (list_loop pre commands) (fun commands' => list_loop post commands').
Proof.
  revert commands. induction pre as [|[item r] pre IH]; intros commands; [done|].
  cbn [app list_loop]. destruct r as [n| | |]; cbn [pbind]; try done.
  destruct (is_Command n); [apply IH|done].
Qed.

Lemma registry_loop_registry items desc commands n :
  registry_loop items desc commands = POk n -> is_CommandRegistry n = true.
Proof.
  revert desc commands. induction items as [|[key [value r]] items IH]; intros desc commands.
  - cbn. by intros [= <-].
  - cbn [registry_loop]. destruct r as [c| | |]; cbn [pbind]; try done.
    destruct (String.eqb key "desc").
    + destruct c; try done. apply IH.
    + apply IH.
Qed.

(** What a registry holds under a name once its loop has ended well. *)
Lemma registry_loop_get items desc commands desc' commands' key :
  registry_loop items desc commands = POk (CommandRegistry desc' commands') ->
  List.NoDup (PyDict.keys items) ->
  key <> "desc" ->
  PyDict.get key commands' =
    match PyDict.get key items with
    | Some (_, POk n) => Some n
    | Some _ => None
    | None => PyDict.get key commands
    end.
Proof.
  intros Hloop Hnd Hkey. revert desc commands Hloop Hnd.
  induction items as [|[k [value r]] items IH]; intros desc commands Hloop Hnd.
  - cbn in Hloop. injection Hloop as <- <-. done.
  - inversion Hnd as [|? ? Hnotin Hnd']; subst.
    cbn [registry_loop] in Hloop. destruct r as [c| | |]; cbn [pbind] in Hloop; try done.
    cbn [PyDict.get]. destruct (String.eqb k key) eqn:E.
    + apply String.eqb_eq in E; subst k.
      destruct (String.eqb key "desc") eqn:E'; [by apply String.eqb_eq in E'|].
      rewrite (IH _ _ Hloop Hnd').
      apply PyDict_get_None_keys in Hnotin. rewrite Hnotin.
      apply PyDict_get_set_eq.
    + apply String.eqb_neq in E. destruct (String.eqb k "desc") eqn:E'.
      * destruct c; try done. apply (IH _ _ Hloop Hnd').
      * rewrite (IH _ _ Hloop Hnd').
        destruct (PyDict.get key items) as [[? ?]|]; [done|].
        by apply PyDict_get_set_ne.
Qed.

Lemma get_each_pair key d :
  PyDict.get key (each_pair d) =
    option_map (fun v => (v, parse_command v)) (PyDict.get key d).
Proof.
  induction d as [|[k v] r IH]; [done|]. cbn [parse_items map fst snd PyDict.get].
  destruct (String.eqb k key); [done|]. apply IH.
Qed.

Lemma keys_each_pair d : PyDict.keys (each_pair d) = PyDict.keys d.
Proof.
  unfold PyDict.keys, parse_items. rewrite List.map_map. done.
Qed.

Lemma parse_command_not_CommandData v :
  is_CommandData v = false -> parse_command v = POk PyNone.
Proof. by destruct v. Qed.

End ParserFacts.

Lemma hoist_desc_first pre d post :
  forallb (fun c => negb (is_DescConfig c)) pre = true ->
  hoist_desc (pre ++ DescConfig d :: post) = Some (d, pre ++ post).
Proof.
  induction pre as [|c pre IH]; [done|]. cbn [forallb app].
  intros [Hc Hpre]%andb_prop. cbn [hoist_desc]. rewrite (IH Hpre).
  by destruct c.
Qed.

Lemma hoist_desc_none commands :
  forallb (fun c => negb (is_DescConfig c)) commands = true ->
  hoist_desc commands = None.
Proof.
  induction commands as [|c r IH]; [done|]. cbn [forallb].
  intros [Hc Hr]%andb_prop. cbn [hoist_desc]. rewrite (IH Hr).
  by destruct c.
Qed.

(** ** Heights, and why the count of [execute_command] is enough *)

Lemma PyDict_get_In {V} (k : string) (v : V) d : PyDict.get k d = Some v -> In (k, v) d.
Proof.
  induction d as [|[k' v'] r IH]; cbn [PyDict.get]; [done|].
  destruct (String.eqb k' k) eqn:E.
  - apply String.eqb_eq in E. intros [= ->]. subst. by left.
  - intros H. right. by apply IH.
Qed.

Lemma height_member d commands c :
  In c commands -> height c < height (ListCommands d commands).
Proof.
  cbn [height]. induction commands as [|c' r IH]; [done|].
  intros [->|Hin]; [lia|]. specialize (IH Hin). lia.
Qed.

Lemma height_child d commands k c :
  In (k, c) commands -> height c < height (CommandRegistry d commands).
Proof.
  cbn [height]. induction commands as [|[k' c'] r IH]; [done|].
  intros [[= -> ->]|Hin]; [lia|]. specialize (IH Hin). lia.
Qed.

Lemma get_command_not_OutOfFuel reg st : fst (get_command reg st) <> OutOfFuel.
Proof.
  revert st. induction reg as [| | | | | | |d commands IH] using Node_nested_ind;
    intros st; try done.
  rewrite get_command_eq. destruct (ctx_args st) as [|cmd_name rest]; [done|].
  destruct (PyDict.get cmd_name commands) as [next|] eqn:E; [|done].
  destruct (is_CommandRegistry next); [|done].
  apply PyDict_get_In in E. rewrite List.Forall_forall in IH. apply (IH _ E).
Qed.

Lemma get_command_height reg st n st' :
  get_command reg st = (Return n, st') -> height n < height reg.
Proof.
  revert st n st'. induction reg as [| | | | | | |d commands IH] using Node_nested_ind;
    intros st n st'; try done.
  rewrite get_command_eq. destruct (ctx_args st) as [|cmd_name rest]; [done|].
  destruct (PyDict.get cmd_name commands) as [next|] eqn:E; [|done].
  apply PyDict_get_In in E. pose proof (height_child d _ _ _ E) as Hlt.
  destruct (is_CommandRegistry next).
  - rewrite List.Forall_forall in IH. intros H. apply (IH _ E) in H. cbn [snd] in H. lia.
  - intros [= <- <-]. done.
Qed.

Lemma for_each_not_OutOfFuel {A} (body : A -> State -> Outcome unit * State) items st :
  (forall x st, In x items -> fst (body x st) <> OutOfFuel) ->
  fst (for_each body items st) <> OutOfFuel.
Proof.
  revert st. induction items as [|x r IH]; intros st Hbody; [done|].
  cbn [for_each]. pose proof (Hbody x st (or_introl eq_refl)) as Hx.
  destruct (body x st) as [[[]| |] st1]; try done.
  apply IH. intros y st2 Hy. apply Hbody. by right.
Qed.

Section ExecutorFacts.

Variable shell : string -> State -> Z.

Local Abbreviation exec := (execute_command shell).

(** With a count that is at least the height of the node,
    [execute_command] ends by returning or by raising. *)
Lemma execute_command_returns fuel cmd st :
  height cmd <= fuel -> fst (exec fuel cmd st) <> OutOfFuel.
Proof.
  revert cmd st. induction fuel as [|fuel IH]; intros cmd st Hh.
  { destruct cmd; cbn [height] in Hh; lia. }
  destruct cmd as [| | | |s|d commands|d inner c ee se t|]; try done.
  - cbn [execute_command]. unfold sh.cmd. by destruct (_ && _).
  - cbn [execute_command].
    destruct (for_each (exec fuel) commands st) as [o st1] eqn:E. cbn [fst].
    change o with (fst (o, st1)). rewrite <- E.
    apply for_each_not_OutOfFuel. intros x st2 Hx. apply IH.
    pose proof (height_member d _ _ Hx). lia.
  - cbn [execute_command].
    destruct (for_each _ ee _) as [o2 st2] eqn:E2.
    assert (Ho2 : o2 <> OutOfFuel).
    { change o2 with (fst (o2, st2)). rewrite <- E2.
      apply for_each_not_OutOfFuel. intros x st3 _.
      unfold ensure_env_body. by destruct (negb _). }
    destruct o2 as [[]| |]; [|done|done].
    match goal with
    | |- fst (let '(o, st6) := ?body in _) <> _ =>
        destruct body as [o st6] eqn:E;
        assert (Ho : o <> OutOfFuel); [|by destruct o as [[]| |]]
    end.
    cbn [height] in Hh. change o with (fst (o, st6)). rewrite <- E. clear E.
    destruct (is_Command inner).
    { apply IH. lia. }
    destruct (is_CommandRegistry inner); [|done].
    match goal with
    | |- fst (match get_command inner ?s with _ => _ end) <> _ =>
        pose proof (get_command_not_OutOfFuel inner s) as Hg;
        destruct (get_command inner s) as [[sub| |] st5'] eqn:Eg; try done
    end.
    apply get_command_height in Eg. apply IH. lia.
Qed.

(** The [CommandObj] case, stage by stage. *)
Lemma execute_command_obj fuel d inner c ee se t st :
  exec (S fuel) (CommandObj d inner c ee se t) st =
    match for_each (ensure_env_body (CommandObj d inner c ee se t)) ee
                   (apply_set_env se st) with
    | (Return _, st2) =>
        leave_scope se (ctx_throw st2) (ctx_cwd st2)
                    (scope_body shell fuel inner (enter_scope t c st2))
    | r => r
    end.
Proof.
  cbn [execute_command]. fold (apply_set_env se st).
  destruct (for_each _ ee _) as [[[]| |] st2]; try done.
  fold (enter_scope t c st2). fold (scope_body shell fuel inner (enter_scope t c st2)).
  destruct (scope_body _ _ _ _) as [o st6]. unfold leave_scope. cbn [fst snd].
  fold (remove_set_env se (restore_ctx (ctx_throw st2) (ctx_cwd st2) st6)).
  by destruct o as [[]| |].
Qed.

(** *** Frames: what a call leaves alone *)

Lemma for_each_frame {A B} (proj : State -> B)
    (body : A -> State -> Outcome unit * State) items st :
  (forall x st, In x items -> proj (snd (body x st)) = proj st) ->
  proj (snd (for_each body items st)) = proj st.
Proof.
  revert st. induction items as [|x r IH]; intros st Hbody; [done|].
  cbn [for_each]. pose proof (Hbody x st (or_introl eq_refl)) as Hx.
  destruct (body x st) as [[[]| |] st1]; cbn [snd] in *; try done.
  rewrite IH; [done|]. intros y st2 Hy. apply Hbody. by right.
Qed.

Lemma fold_left_frame {A B} (proj : State -> B) (step : State -> A -> State) items st :
  (forall x st, In x items -> proj (step st x) = proj st) ->
  proj (fold_left step items st) = proj st.
Proof.
  revert st. induction items as [|x r IH]; intros st Hstep; [done|].
  cbn [fold_left]. rewrite IH.
  - apply Hstep. by left.
  - intros y st2 Hy. apply Hstep. by right.
Qed.

Lemma ensure_env_frame {B} (proj : State -> B) cmd ee st :
  (forall ms st, proj (print ms st) = proj st) ->
  proj (snd (for_each (ensure_env_body cmd) ee st)) = proj st.
Proof.
  intros Hprint. apply for_each_frame. intros x st1 _.
  unfold ensure_env_body. destruct (negb _); [apply Hprint|done].
Qed.

Section Frame.

Context {B : Type} (proj : State -> B) (ok : Node -> bool).

Hypothesis proj_throw : forall t st, proj (set_ctx_throw t st) = proj st.
Hypothesis proj_cwd : forall c st, proj (set_ctx_cwd c st) = proj st.
Hypothesis proj_args : forall a st, proj (set_ctx_args a st) = proj st.
Hypothesis proj_print : forall ms st, proj (print ms st) = proj st.
Hypothesis proj_cmd : forall s t st, proj (snd (sh.cmd shell s t st)) = proj st.
Hypothesis ok_member : forall d commands c,
  ok (ListCommands d commands) = true -> In c commands -> ok c = true.
Hypothesis ok_child : forall d commands k c,
  ok (CommandRegistry d commands) = true -> In (k, c) commands -> ok c = true.
Hypothesis ok_obj : forall d inner c ee se t,
  ok (CommandObj d inner c ee se t) = true ->
  ok inner = true
  /\ (forall k v st, In (k, v) se -> proj (sh.set_env k v st) = proj st)
  /\ (forall k st, In k (PyDict.keys se) -> proj (sh.unset_env k st) = proj st)
  /\ (forall p st, proj (sh.cd p st) = proj st).

Lemma get_command_frame reg st : proj (snd (get_command reg st)) = proj st.
Proof.
  revert st. induction reg as [| | | | | | |d commands IH] using Node_nested_ind;
    intros st; try done.
  rewrite get_command_eq. destruct (ctx_args st) as [|cmd_name rest].
  { cbn [snd]. apply proj_print. }
  destruct (PyDict.get cmd_name commands) as [next|] eqn:E.
  - destruct (is_CommandRegistry next).
    + apply PyDict_get_In in E. rewrite List.Forall_forall in IH.
      rewrite (IH _ E). apply proj_args.
    + cbn [snd]. apply proj_args.
  - cbn [snd]. rewrite proj_print. apply proj_args.
Qed.

Lemma get_command_ok reg st n st' :
  ok reg = true -> get_command reg st = (Return n, st') -> ok n = true.
Proof.
  revert st n st'. induction reg as [| | | | | | |d commands IH] using Node_nested_ind;
    intros st n st' Hok; try done.
  rewrite get_command_eq. destruct (ctx_args st) as [|cmd_name rest]; [done|].
  destruct (PyDict.get cmd_name commands) as [next|] eqn:E; [|done].
  apply PyDict_get_In in E. pose proof (ok_child _ _ _ _ Hok E) as Hnext.
  destruct (is_CommandRegistry next).
  - rewrite List.Forall_forall in IH. apply (IH _ E). exact Hnext.
  - by intros [= <- <-].
Qed.

Lemma execute_command_frame fuel cmd st :
  ok cmd = true -> proj (snd (exec fuel cmd st)) = proj st.
Proof.
  revert cmd st. induction fuel as [|fuel IH]; intros cmd st Hok; [done|].
  destruct cmd as [|t|d|c|s|d commands|d inner c ee se t|d commands].
  - done.
  - cbn. apply proj_throw.
  - done.
  - cbn. apply proj_cwd.
  - cbn [execute_command]. apply proj_cmd.
  - cbn [execute_command].
    destruct (for_each (exec fuel) commands st) as [o st1] eqn:E. cbn [snd].
    unfold restore_ctx. rewrite proj_cwd, proj_throw.
    change st1 with (snd (o, st1)). rewrite <- E.
    apply for_each_frame. intros x st2 Hx. apply IH. by eapply ok_member.
  - rewrite execute_command_obj.
    destruct (ok_obj _ _ _ _ _ _ Hok) as (Hinner & Hset & Hunset & Hcd).
    assert (Hst1 : proj (apply_set_env se st) = proj st).
    { apply fold_left_frame. intros [k v] st1 Hin. by apply Hset. }
    pose proof (ensure_env_frame proj (CommandObj d inner c ee se t) ee
                  (apply_set_env se st) proj_print) as Hst2.
    destruct (for_each _ ee _) as [[[]| |] st2]; cbn [snd] in Hst2;
      [|cbn [snd]; congruence..].
    assert (Hst5 : proj (enter_scope t c st2) = proj st2).
    { unfold enter_scope. destruct (ctx_cwd _); rewrite ?Hcd, proj_cwd, proj_throw; done. }
    assert (Hst6 : proj (snd (scope_body shell fuel inner (enter_scope t c st2)))
                   = proj st2).
    { rewrite <- Hst5. unfold scope_body. destruct (is_Command inner).
      { by apply IH. }
      destruct (is_CommandRegistry inner); [|done].
      pose proof (get_command_frame inner (enter_scope t c st2)) as Hg.
      destruct (get_command inner _) as [[sub| |] st5'] eqn:Eg; cbn [snd] in Hg |- *;
        try done.
      rewrite IH; [done|]. by eapply get_command_ok. }
    unfold leave_scope.
    assert (Hst7 : proj (restore_ctx (ctx_throw st2) (ctx_cwd st2)
                           (snd (scope_body shell fuel inner (enter_scope t c st2))))
                   = proj st).
    { unfold restore_ctx. rewrite proj_cwd, proj_throw. congruence. }
    destruct (fst (scope_body _ _ _ _)) as [[]| |]; cbn [snd]; try done.
    unfold remove_set_env. rewrite fold_left_frame; [done|].
    intros k st8 Hk. by apply Hunset.
  - done.
Qed.

End Frame.

End ExecutorFacts.

(** ** What a scope restores, removes and leaves alone *)

Lemma sets_key_member key d commands c :
  sets_key key (ListCommands d commands) = false -> In c commands -> sets_key key c = false.
Proof.
  cbn [sets_key]. induction commands as [|c' r IH]; [done|].
  intros [Hc Hr]%orb_false_elim [->|Hin]; [done|]. by apply IH.
Qed.

Lemma sets_key_child key d commands k c :
  sets_key key (CommandRegistry d commands) = false -> In (k, c) commands ->
  sets_key key c = false.
Proof.
  cbn [sets_key]. induction commands as [|[k' c'] r IH]; [done|].
  intros [Hc Hr]%orb_false_elim [[= -> ->]|Hin]; [done|]. by apply IH.
Qed.

Lemma scope_free_member d commands c :
  scope_free (ListCommands d commands) = true -> In c commands -> scope_free c = true.
Proof.
  cbn [scope_free]. induction commands as [|c' r IH]; [done|].
  intros [Hc Hr]%andb_prop [->|Hin]; [done|]. by apply IH.
Qed.

Lemma scope_free_child d commands k c :
  scope_free (CommandRegistry d commands) = true -> In (k, c) commands -> scope_free c = true.
Proof.
  cbn [scope_free]. induction commands as [|[k' c'] r IH]; [done|].
  intros [Hc Hr]%andb_prop [[= -> ->]|Hin]; [done|]. by apply IH.
Qed.

Lemma PyDict_has_false_In {V} (k k' : string) (v : V) d :
  PyDict.has k d = false -> In (k', v) d -> k' <> k.
Proof.
  unfold PyDict.has. intros Hhas Hin ->.
  destruct (PyDict.get k d) eqn:E; [done|].
  apply PyDict_get_None_keys in E. apply E. unfold PyDict.keys.
  by apply (List.in_map fst) in Hin.
Qed.

Lemma PyDict_has_false_keys {V} (k k' : string) (d : list (string * V)) :
  PyDict.has k d = false -> In k' (PyDict.keys d) -> k' <> k.
Proof.
  unfold PyDict.keys. intros Hhas [[k0 v] [<- Hin]]%List.in_map_iff.
  by eapply PyDict_has_false_In.
Qed.

Section ScopeFacts.

Variable shell : string -> State -> Z.

Local Abbreviation exec := (execute_command shell).

(** A variable that no [set_env] of the node names keeps its value,
    however the call ends. *)
Lemma execute_command_environ fuel cmd st key :
  sets_key key cmd = false ->
  environ (snd (exec fuel cmd st)) !! key = environ st !! key.
Proof.
  intros Hkey.
  apply (execute_command_frame shell (fun st => environ st !! key)
           (fun c => negb (sets_key key c))); try done.
  - intros s t st1. unfold sh.cmd. by destruct (_ && _).
  - intros d commands c Hok%negb_true_iff Hin. apply negb_true_iff.
    by eapply sets_key_member.
  - intros d commands k c Hok%negb_true_iff Hin. apply negb_true_iff.
    by eapply sets_key_child.
  - intros d inner c ee se t Hok%negb_true_iff. cbn [sets_key] in Hok.
    apply orb_false_elim in Hok as [Hse Hinner].
    split; [by apply negb_true_iff|]. split; [|split].
    + intros k v st1 Hin. cbn. apply lookup_insert_ne.
      by eapply PyDict_has_false_In.
    + intros k st1 Hin. cbn. apply lookup_delete_ne.
      by eapply PyDict_has_false_keys.
    + done.
  - by apply negb_true_iff.
Qed.

(** A node without [CommandObj] leaves the working directory of the
    process where it is. *)
Lemma execute_command_process_cwd fuel cmd st :
  scope_free cmd = true -> process_cwd (snd (exec fuel cmd st)) = process_cwd st.
Proof.
  apply (execute_command_frame shell process_cwd scope_free); try done.
  - intros s t st1. unfold sh.cmd. by destruct (_ && _).
  - apply scope_free_member.
  - apply scope_free_child.
Qed.

Lemma get_command_scope_free reg st n st' :
  scope_free reg = true -> get_command reg st = (Return n, st') -> scope_free n = true.
Proof. apply (get_command_ok scope_free). apply scope_free_child. Qed.

Lemma apply_set_env_ctx se st :
  ctx_throw (apply_set_env se st) = ctx_throw st
  /\ ctx_cwd (apply_set_env se st) = ctx_cwd st
  /\ process_cwd (apply_set_env se st) = process_cwd st
  /\ stdout (apply_set_env se st) = stdout st.
Proof. unfold apply_set_env. repeat split; by apply fold_left_frame. Qed.

Lemma remove_set_env_ctx se st :
  ctx_throw (remove_set_env se st) = ctx_throw st
  /\ ctx_cwd (remove_set_env se st) = ctx_cwd st
  /\ process_cwd (remove_set_env se st) = process_cwd st
  /\ stdout (remove_set_env se st) = stdout st.
Proof. unfold remove_set_env. repeat split; by apply fold_left_frame. Qed.

Lemma apply_set_env_has se st name :
  PyDict.has name se = true -> sh.has_env name (apply_set_env se st) = true.
Proof.
  unfold apply_set_env, sh.has_env. revert st.
  induction se as [|[k v] r IH]; intros st; [done|].
  unfold PyDict.has. cbn [PyDict.get fold_left fst snd].
  destruct (String.eqb k name) eqn:E.
  - apply String.eqb_eq in E; subst k. intros _.
    destruct (PyDict.has name r) eqn:Hr; [by apply IH|].
    assert (environ (fold_left (fun s kv => sh.set_env kv.1 kv.2 s) r
                       (sh.set_env name v st)) !! name = Some v) as ->; [|done].
    rewrite (fold_left_frame (fun s => environ s !! name)).
    + cbn. apply lookup_insert_eq.
    + intros [k' v'] st1 Hin. cbn. apply lookup_insert_ne.
      by eapply PyDict_has_false_In.
  - intros H. by apply IH.
Qed.

Lemma apply_set_env_keeps se st name :
  is_Some (environ st !! name) -> sh.has_env name (apply_set_env se st) = true.
Proof.
  unfold apply_set_env, sh.has_env. revert st.
  induction se as [|[k v] r IH]; intros st [x Hx]; cbn [fold_left]; [by rewrite Hx|].
  apply IH. cbn. destruct (decide (k = name)) as [->|Hne].
  - rewrite lookup_insert_eq. eauto.
  - rewrite lookup_insert_ne by done. eauto.
Qed.

(** When every required variable is set by the node or present before
    it, the loop over [ensure_env] returns and only the state of
    [apply_set_env] is left. *)
Lemma ensure_env_passes cmd ee st :
  (forall name, In name ee -> sh.has_env name st = true) ->
  for_each (ensure_env_body cmd) ee st = (Return tt, st).
Proof.
  induction ee as [|name r IH]; intros Hall; [done|].
  cbn [for_each]. unfold ensure_env_body at 1.
  rewrite (Hall name (or_introl eq_refl)). cbn [negb].
  apply IH. intros n Hn. apply Hall. by right.
Qed.

Lemma remove_set_env_lookup se st key :
  In key (PyDict.keys se) -> environ (remove_set_env se st) !! key = None.
Proof.
  unfold remove_set_env. generalize (PyDict.keys se). intros keys. revert st.
  induction keys as [|k r IH]; intros st; [done|].
  cbn [fold_left]. destruct (List.in_dec String.string_dec key r) as [Hr|Hr].
  - intros _. by apply IH.
  - intros [->|Hin]; [|done].
    rewrite (fold_left_frame (fun s => environ s !! key)).
    + cbn. apply lookup_delete_eq.
    + intros k' st1 Hin. cbn. apply lookup_delete_ne. by intros ->.
Qed.

(** Both fields of the context are back when a [CommandObj] ends,
    however it ends. *)
Lemma command_obj_restores_ctx fuel d inner c ee se t st :
  let r := exec fuel (CommandObj d inner c ee se t) st in
  ctx_throw (snd r) = ctx_throw st /\ ctx_cwd (snd r) = ctx_cwd st.
Proof.
  destruct fuel as [|fuel]; [done|]. cbn zeta. rewrite execute_command_obj.
  destruct (apply_set_env_ctx se st) as (Ht1 & Hc1 & _).
  pose proof (ensure_env_frame ctx_throw (CommandObj d inner c ee se t) ee
                (apply_set_env se st) (fun _ _ => eq_refl)) as Ht2.
  pose proof (ensure_env_frame ctx_cwd (CommandObj d inner c ee se t) ee
                (apply_set_env se st) (fun _ _ => eq_refl)) as Hc2.
  destruct (for_each _ ee _) as [[[]| |] st2]; cbn [snd] in *;
    [|split; congruence..].
  unfold leave_scope. destruct (fst (scope_body _ _ _ _)) as [[]| |]; cbn [snd].
  - destruct (remove_set_env_ctx se
                (restore_ctx (ctx_throw st2) (ctx_cwd st2)
                   (snd (scope_body shell fuel inner (enter_scope t c st2)))))
      as (-> & -> & _).
    cbn. split; congruence.
  - cbn. split; congruence.
  - cbn. split; congruence.
Qed.

(** *** The standard output *)

Lemma announced_transfer {A B} st st' (r : Outcome A * State) (r' : Outcome B * State) :
  stdout st' = stdout st ->
  stdout (snd r') = stdout (snd r) ->
  match fst r, fst r' with
  | Return _, Return _ => True
  | Raise e, Raise e' => e = e'
  | OutOfFuel, OutOfFuel => True
  | _, _ => False
  end ->
  announced st r -> announced st' r'.
Proof.
  unfold announced. intros -> ->.
  destruct (fst r) as [a|e|], (fst r') as [b|e'|]; try done.
  by intros ->.
Qed.

Lemma get_command_announced reg st : announced st (get_command reg st).
Proof.
  revert st. induction reg as [| | | | | | |d commands IH] using Node_nested_ind;
    intros st; try done.
  rewrite get_command_eq. destruct (ctx_args st) as [|cmd_name rest].
  { split; [done|]. by exists MissingCommands, [AvailableCommands (PyDict.keys commands)]. }
  destruct (PyDict.get cmd_name commands) as [next|] eqn:E.
  - destruct (is_CommandRegistry next); [|done].
    apply PyDict_get_In in E. rewrite List.Forall_forall in IH.
    specialize (IH _ E (set_ctx_args rest st)). cbn [snd] in IH.
    eapply announced_transfer; [| | |exact IH]; [done..|].
    by destruct (fst _) as [?|?|].
  - split; [done|].
    by exists (UnknownCommand cmd_name), [AvailableCommands (PyDict.keys commands)].
Qed.

Lemma for_each_announced {A} (body : A -> State -> Outcome unit * State) items st :
  (forall x st, In x items -> announced st (body x st)) ->
  announced st (for_each body items st).
Proof.
  revert st. induction items as [|x r IH]; intros st Hbody; [done|].
  cbn [for_each]. pose proof (Hbody x st (or_introl eq_refl)) as Hx.
  destruct (body x st) as [[[]| |] st1] eqn:E; try done.
  unfold announced in Hx. cbn [fst snd] in Hx.
  eapply (announced_transfer st1 st); [by symmetry| | |apply IH].
  - done.
  - by destruct (fst _) as [?|?|].
  - intros y st2 Hy. apply Hbody. by right.
Qed.

Lemma ensure_env_announced cmd ee st :
  announced st (for_each (ensure_env_body cmd) ee st).
Proof.
  apply for_each_announced. intros name st1 _. unfold ensure_env_body.
  destruct (negb _); [|done]. split; [done|].
  by exists (MissingEnvironmentVariable name), [WhileExecutingCommand cmd].
Qed.

Lemma execute_command_announced fuel cmd st : announced st (exec fuel cmd st).
Proof.
  revert cmd st. induction fuel as [|fuel IH]; intros cmd st; [done|].
  destruct cmd as [|t|d|c|s|d commands|d inner c ee se t|d commands]; try done.
  - cbn [execute_command]. unfold sh.cmd. by destruct (_ && _).
  - cbn [execute_command].
    pose proof (for_each_announced (exec fuel) commands st (fun x st _ => IH x st)) as H.
    destruct (for_each (exec fuel) commands st) as [o st1].
    eapply announced_transfer; [| | |exact H]; [done..|].
    by destruct o as [?|?|].
  - rewrite execute_command_obj.
    destruct (apply_set_env_ctx se st) as (_ & _ & _ & Hout1).
    pose proof (ensure_env_announced (CommandObj d inner c ee se t) ee
                  (apply_set_env se st)) as H2.
    destruct (for_each _ ee _) as [[[]| |] st2] eqn:E2.
    2,3: eapply announced_transfer; [exact (eq_sym Hout1)| | |exact H2]; done.
    assert (Hout2 : stdout st2 = stdout st).
    { unfold announced in H2. cbn [fst snd] in H2. congruence. }
    assert (Hout5 : stdout (enter_scope t c st2) = stdout st).
    { rewrite <- Hout2. unfold enter_scope. by destruct (ctx_cwd _). }
    assert (Hbody : announced st (scope_body shell fuel inner (enter_scope t c st2))).
    { unfold scope_body. destruct (is_Command inner).
      { eapply announced_transfer; [exact (eq_sym Hout5)| | |apply IH]; [done|].
        by destruct (fst _) as [?|?|]. }
      destruct (is_CommandRegistry inner); [|by unfold announced].
      pose proof (get_command_announced inner (enter_scope t c st2)) as Hg.
      destruct (get_command inner _) as [[sub| |] st5'] eqn:Eg.
      - unfold announced in Hg. cbn [fst snd] in Hg.
        eapply (announced_transfer st5' st); [congruence| | |apply IH]; [done|].
        by destruct (fst _) as [?|?|].
      - eapply announced_transfer; [exact (eq_sym Hout5)| | |exact Hg]; done.
      - eapply announced_transfer; [exact (eq_sym Hout5)| | |exact Hg]; done. }
    unfold leave_scope.
    destruct (scope_body _ _ _ _) as [[[]| |] st6]; cbn [fst snd] in *.
    + eapply announced_transfer; [| | |exact Hbody]; [done| |done].
      cbn [snd]. by destruct (remove_set_env_ctx se
                                (restore_ctx (ctx_throw st2) (ctx_cwd st2) st6))
        as (_ & _ & _ & ->).
    + eapply announced_transfer; [| | |exact Hbody]; done.
    + eapply announced_transfer; [| | |exact Hbody]; done.
Qed.

(** *** Sequences *)

(** The [ListCommands] case. *)
Lemma execute_command_list fuel d commands st :
  exec (S fuel) (ListCommands d commands) st =
    let r := for_each (exec fuel) commands st in
    (fst r, restore_ctx (ctx_throw st) (ctx_cwd st) (snd r)).
Proof. cbn [execute_command]. by destruct (for_each _ _ _). Qed.

Lemma for_each_app {A} (body : A -> State -> Outcome unit * State) pre post st :
  for_each body (pre ++ post) st =
    match for_each body pre st with
    | (Return _, st') => for_each body post st'
    | r => r
    end.
Proof.
  revert st. induction pre as [|x r IH]; intros st; [done|].
  cbn [app for_each]. destruct (body x st) as [[[]| |] st1]; [apply IH|done..].
Qed.

Lemma for_each_literals fuel ss st :
  py_bool (ctx_throw st) = false ->
  let r := for_each (exec (S fuel)) (map SimpleCommand ss) st in
  fst r = Return tt
  /\ started (snd r) = started st ++ map (fun c => (c, process_cwd st)) ss.
Proof.
  revert st. induction ss as [|s ss IH]; intros st Hthrow.
  { cbn. by rewrite List.app_nil_r. }
  cbn [map for_each].
  change (exec (S fuel) (SimpleCommand s) st) with (sh.cmd shell s (ctx_throw st) st).
  unfold sh.cmd. rewrite Hthrow, andb_false_r. cbv beta iota zeta.
  match goal with |- context [for_each _ _ ?s1] => specialize (IH s1 Hthrow) end.
  cbv beta iota zeta in IH. destruct IH as [-> ->]. split; [done|].
  cbn. by rewrite <- List.app_assoc.
Qed.

End ScopeFacts.

(** * The claims about the parser and the data model *)

(** C3 (the code departs from it). With the configuration file at
    [/etc/run.yml], and indeed with it anywhere, [resolve_cwd] of
    [$THIS_DIR/sub] is the root directory [/], not [/etc/sub]: what is
    left after the token starts with a slash, so joining it to the file
    path discards the file path, and [parent] is taken of the join. *)
Theorem resolve_cwd_this_dir_sub_is_root (file_path : Path) (path_resolve : string -> Path) :
  resolve_cwd file_path path_resolve "$THIS_DIR/sub" = Pathlib.of_string "/"
  /\ Pathlib.to_string (resolve_cwd file_path path_resolve "$THIS_DIR/sub") = "/"
  /\ ~ Spec.this_dir_sub path_resolve.
Proof.
  split; [reflexivity|]. split; [reflexivity|].
  unfold Spec.this_dir_sub. vm_compute. discriminate.
Qed.

(** C5, the statement of the specification fails: a [DescConfig] that
    is not the leading item is removed and hoisted all the same. *)
Lemma hoists_leading_only_fails :
  ~ Spec.hoists_leading_only [SimpleCommand "a"; DescConfig (YStr "d")].
Proof. unfold Spec.hoists_leading_only. vm_compute. discriminate. Qed.

(** C5, as the code has it. The constructor of [ListCommands] removes at
    most one [DescConfig], the first one of the list wherever it stands,
    and its text becomes the description of the sequence; the items
    before and after it stay, later [DescConfig] items included. A list
    without any keeps all its items and the default description. A
    [DescConfig] that is executed does nothing. *)
Theorem new_ListCommands_hoists_first_desc
    (pre : list Node) (d : yaml) (post : list Node)
    (Hpre : forallb (fun c => negb (is_DescConfig c)) pre = true) :
  new_ListCommands (pre ++ DescConfig d :: post) = ListCommands d (pre ++ post)
  /\ new_ListCommands pre = ListCommands (YStr "") pre
  /\ (forall shell fuel st,
        execute_command shell (S fuel) (DescConfig d) st = (Return tt, st)).
Proof.
  unfold new_ListCommands.
  rewrite (hoist_desc_first pre d post Hpre), (hoist_desc_none pre Hpre).
  repeat split.
Qed.

Lemma new_ListCommands_hoists_first_desc_witness :
  new_ListCommands
    ([SimpleCommand "a"] ++ DescConfig (YStr "d") :: [DescConfig (YStr "e")])
  = ListCommands (YStr "d") ([SimpleCommand "a"] ++ [DescConfig (YStr "e")]).
Proof.
  exact (proj1 (new_ListCommands_hoists_first_desc
                  [SimpleCommand "a"] (YStr "d") [DescConfig (YStr "e")] eq_refl)).
Defined.

(** C6. [get_command] on a registry: with no argument left it prints
    the missing-command message and exits; otherwise it takes the first
    argument off the front, and prints the unknown-command message naming
    it and exits when the registry has no such child; it goes on inside
    a child that is a registry, with the shorter arguments; any other
    child is returned and the arguments after it are left in place. For
    [A = {b: {c: "echo hi"}}], [b c] resolves to the literal [echo hi] and
    [b x] fails naming [x]. *)
Theorem get_command_resolves (desc : string) (commands : list (string * Node)) (st : State) :
  get_command (CommandRegistry desc commands) st =
    match ctx_args st with
    | [] =>
        (Raise (SystemExit 1),
         print [MissingCommands; AvailableCommands (PyDict.keys commands)] st)
    | cmd_name :: rest =>
        match PyDict.get cmd_name commands with
        | None =>
            (Raise (SystemExit 1),
             print [UnknownCommand cmd_name; AvailableCommands (PyDict.keys commands)]
                   (set_ctx_args rest st))
        | Some next_cmd =>
            if is_CommandRegistry next_cmd
            then get_command next_cmd (set_ctx_args rest st)
            else (Return next_cmd, set_ctx_args rest st)
        end
    end
  /\ _parse_command Ex.config_path Pathlib.of_string Ex.A_doc = POk Ex.A
  /\ get_command Ex.A (set_ctx_args ["b"; "c"] st)
       = (Return (SimpleCommand "echo hi"), set_ctx_args [] st)
  /\ get_command Ex.A (set_ctx_args ["b"; "c"; "d"] st)
       = (Return (SimpleCommand "echo hi"), set_ctx_args ["d"] st)
  /\ get_command Ex.A (set_ctx_args ["b"; "x"] st)
       = (Raise (SystemExit 1),
          print [UnknownCommand "x"; AvailableCommands ["c"]] (set_ctx_args [] st)).
Proof.
  split; [apply get_command_eq|]. repeat split.
Qed.

(** C8. [override] is a shallow merge: looking a name up in the result
    gives the child of [other] when [other] has the name (the whole
    child, whatever [self] had under it), and the child of [self]
    otherwise. So [{x: 1, y: 2}] overridden by [{x: 3}] is [{x: 3, y: 2}],
    and a registry under [x] is replaced, not merged. *)
Theorem override_shallow
    (desc desc' : string) (commands commands' : list (string * Node)) (name : string)
    (Hkeys : List.NoDup (PyDict.keys commands')) :
  PyDict.get name
    (reg_commands (reg (override (mkRunConfig (CommandRegistry desc commands))
                                 (mkRunConfig (CommandRegistry desc' commands')))))
  = match PyDict.get name commands' with
    | Some child => Some child
    | None => PyDict.get name commands
    end
  /\ reg_commands (reg (override Ex.system Ex.project))
       = [("x", SimpleCommand "3"); ("y", SimpleCommand "2")]
  /\ reg_commands (reg (override Ex.system_nested Ex.project_nested))
       = [("x", CommandRegistry "" [("a", SimpleCommand "3")])].
Proof.
  split; [|split; reflexivity].
  cbn [override reg reg_commands]. by apply PyDict_get_update.
Qed.

Lemma override_shallow_witness :
  PyDict.get "y" (reg_commands (reg (override Ex.system Ex.project)))
  = Some (SimpleCommand "2").
Proof.
  refine (eq_trans
            (proj1 (override_shallow "" ""
                      [("x", SimpleCommand "1"); ("y", SimpleCommand "2")]
                      [("x", SimpleCommand "3")] "y" _)) _).
  - repeat constructor; simpl; intuition discriminate.
  - reflexivity.
Defined.

(** C9, the statement of the specification fails: the value under
    [throw] is stored as it is, and the string ["no"] is not the boolean
    [bool("no")]. *)
Lemma throw_is_bool_fails :
  ~ Spec.throw_is_bool Ex.config_path Pathlib.of_string (YStr "no").
Proof. unfold Spec.throw_is_bool. vm_compute. discriminate. Qed.

(** C9, as the code has it. A mapping whose only key is [throw] parses to
    a [ThrowConfig] that holds the value under the key unchanged, which is
    [bool(value)] when the value is a boolean. A mapping that has [throw],
    at least one more key and no [cmd] key takes the registry case: its
    parse is the registry loop over its items, and when it succeeds the
    result is a [CommandRegistry]. *)
Theorem parse_throw_mapping
    (file_path : Path) (path_resolve : string -> Path)
    (value : yaml) (d : list (string * yaml))
    (Hthrow : PyDict.has "throw" d = true)
    (Hmore : 2 <= length d)
    (Hcmd : PyDict.has "cmd" d = false) :
  _parse_command file_path path_resolve (YMap [("throw", value)]) = POk (ThrowConfig value)
  /\ (forall b, Spec.throw_is_bool file_path path_resolve (YBool b))
  /\ _parse_command file_path path_resolve (YMap d)
       = registry_loop (parse_items file_path path_resolve d) "" []
  /\ (forall n, _parse_command file_path path_resolve (YMap d) = POk n ->
                is_CommandRegistry n = true).
Proof.
  assert (E : _parse_command file_path path_resolve (YMap d)
              = registry_loop (parse_items file_path path_resolve d) "" []).
  { rewrite parse_command_map, Hcmd.
    assert ((length d =? 1)%nat = false) as -> by (apply Nat.eqb_neq; lia).
    by rewrite !andb_false_r. }
  split; [reflexivity|]. split; [by intros b|]. split; [exact E|].
  intros n Hn. rewrite E in Hn. by eapply registry_loop_registry.
Qed.

Lemma parse_throw_mapping_witness :
  _parse_command Ex.config_path Pathlib.of_string
    (YMap [("throw", YBool true); ("desc", YStr "x")])
  = POk (CommandRegistry "x" [("throw", PyNone)]).
Proof.
  refine (eq_trans
            (proj1 (proj2 (proj2
               (parse_throw_mapping Ex.config_path Pathlib.of_string (YBool true)
                  [("throw", YBool true); ("desc", YStr "x")] eq_refl _ eq_refl)))) _).
  - simpl. lia.
  - reflexivity.
Defined.

Lemma registry_loop_app items more desc acc :
  registry_loop (items ++ more) desc acc =
    match registry_loop items desc acc with
    | POk (CommandRegistry desc' acc') => registry_loop more desc' acc'
    | r => r
    end.
Proof.
  revert desc acc. induction items as [|[k [v r]] items IH]; intros desc acc; [done|].
  cbn [app registry_loop]. destruct r as [c| | |]; cbn [pbind]; try done.
  destruct (String.eqb k "desc"); [|apply IH].
  destruct c; first [done | apply IH].
Qed.

(** Whether the registry loop reaches its end does not depend on what
    the registry holds when the loop starts. *)
Lemma registry_loop_succeeds items desc1 acc1 desc2 acc2 n :
  registry_loop items desc1 acc1 = POk n ->
  exists desc' acc', registry_loop items desc2 acc2 = POk (CommandRegistry desc' acc').
Proof.
  revert desc1 acc1 desc2 acc2. induction items as [|[k [v r]] items IH];
    intros desc1 acc1 desc2 acc2.
  - intros _. by exists desc2, acc2.
  - cbn [registry_loop]. destruct r as [c| | |]; cbn [pbind]; try done.
    destruct (String.eqb k "desc"); [|apply IH].
    destruct c; first [done | apply IH].
Qed.

(** C10. A value that is neither a string, a list nor a mapping parses
    to [None], without any error. As an item of a list it ends the parse
    of the list with the message "Expected a command in list" and
    [exit(1)], unless an earlier item has ended it already. As the value
    of a registry child (any key but [desc]) it raises nothing: the loop
    binds the name to [None] and goes on, and a registry that parses to
    the end holds [None] under that name; so does the top-level
    [parse]. A mapping with that child alone parses to the registry
    that binds the name to [None]; and wherever the child stands in a
    mapping without [cmd], if the loop over the other items of the
    mapping reaches its end, the mapping parses to a registry that
    holds [None] under the name. *)
Theorem parse_non_node
    (file_path : Path) (path_resolve : string -> Path) (v : yaml) (key : string)
    (Hv : is_CommandData v = false) (Hkey : key <> "desc") :
  _parse_command file_path path_resolve v = POk PyNone
  /\ (forall pre post,
        _parse_command file_path path_resolve (YList (pre ++ v :: post))
        = pbind (list_loop (parse_each file_path path_resolve pre) [])
                (fun _ => PExit (ExpectedCommandInList v)))
  /\ (forall rest desc commands,
        registry_loop (parse_items file_path path_resolve ((key, v) :: rest)) desc commands
        = registry_loop (parse_items file_path path_resolve rest) desc
                        (PyDict.set key PyNone commands))
  /\ (forall d desc commands,
        List.NoDup (PyDict.keys d) ->
        PyDict.get key d = Some v ->
        registry_loop (parse_items file_path path_resolve d) "" []
          = POk (CommandRegistry desc commands) ->
        PyDict.get key commands = Some PyNone)
  /\ parse file_path path_resolve (YMap [("commands", YMap [(key, v)])])
       = POk (mkRunConfig (CommandRegistry "" [(key, PyNone)]))
  /\ (key <> "throw" -> key <> "cmd" ->
      _parse_command file_path path_resolve (YMap [(key, v)])
      = POk (CommandRegistry "" [(key, PyNone)]))
  /\ (forall pre post n0,
        List.NoDup (PyDict.keys (pre ++ (key, v) :: post)) ->
        PyDict.has "cmd" (pre ++ (key, v) :: post) = false ->
        key <> "throw" ->
        registry_loop (parse_items file_path path_resolve (pre ++ post)) "" [] = POk n0 ->
        exists desc commands,
          _parse_command file_path path_resolve (YMap (pre ++ (key, v) :: post))
          = POk (CommandRegistry desc commands)
          /\ PyDict.get key commands = Some PyNone).
Proof.
  pose proof (parse_command_not_CommandData file_path path_resolve v Hv) as Hnone.
  assert (Hk : String.eqb key "desc" = false) by by apply String.eqb_neq.
  assert (Hone : forall k' pre post, key <> k' ->
             PyDict.has k' (pre ++ (key, v) :: post)
             && (length (pre ++ (key, v) :: post) =? 1)%nat = false).
  { intros k' pre post Hne. destruct pre as [|p pre].
    - destruct post; [|by rewrite andb_false_r]. unfold PyDict.has. cbn [app PyDict.get].
      by apply String.eqb_neq in Hne as ->.
    - cbn [app length]. rewrite List.length_app. cbn [length].
      rewrite andb_false_iff. right. apply Nat.eqb_neq. lia. }
  split; [exact Hnone|]. split; [|split; [|split; [|split; [|split]]]].
  6:{ intros pre post n0 Hnd Hcmd Hthrow H0.
      rewrite parse_command_map, (Hone "throw") by done.
      rewrite (Hone "desc") by done. rewrite Hcmd.
      unfold parse_items in *. rewrite List.map_app in *. cbn [map fst snd].
      fold (parse_items file_path path_resolve pre) in *.
      fold (parse_items file_path path_resolve post) in *.
      rewrite registry_loop_app in H0 |- *.
      destruct (registry_loop (parse_items file_path path_resolve pre) "" [])
        as [m| | |] eqn:Epre; try done.
      pose proof (registry_loop_registry _ _ _ _ Epre) as Hm.
      destruct m as [| | | | | | |d' c']; try done.
      cbn [registry_loop pbind]. rewrite Hnone. cbn [pbind]. rewrite Hk.
      destruct (registry_loop_succeeds _ _ _ d' (PyDict.set key PyNone c') _ H0)
        as (desc & commands & Hloop).
      exists desc, commands. split; [exact Hloop|].
      assert (Hnd' : List.NoDup (PyDict.keys post) /\ ~ In key (PyDict.keys post)).
      { unfold PyDict.keys in *. rewrite List.map_app in Hnd. cbn [map fst] in Hnd.
        apply List.NoDup_remove in Hnd as [Hnd Hnotin].
        split.
        - apply NoDup_ListNoDup in Hnd. apply NoDup_app in Hnd as (_ & _ & Hp).
          by apply NoDup_ListNoDup.
        - intros Hin. apply Hnotin. apply List.in_or_app. by right. }
      destruct Hnd' as [Hndp Hnotin].
      rewrite (registry_loop_get _ _ _ _ _ key Hloop) by (by rewrite ?keys_each_pair).
      rewrite get_each_pair.
      apply PyDict_get_None_keys in Hnotin. rewrite Hnotin. cbn [option_map].
      apply PyDict_get_set_eq. }
  5:{ intros Hthrow Hcmd. rewrite parse_command_map.
      pose proof (Hone "throw" [] [] Hthrow) as H1. pose proof (Hone "desc" [] [] Hkey) as H2.
      cbn [app] in H1, H2. rewrite H1, H2.
      assert (PyDict.has "cmd" [(key, v)] = false) as ->.
      { unfold PyDict.has. cbn [PyDict.get]. by apply String.eqb_neq in Hcmd as ->. }
      cbn [parse_items map fst snd registry_loop]. rewrite Hnone. cbn [pbind].
      by rewrite Hk. }
  - intros pre post. rewrite parse_command_list. unfold list_case, parse_each.
    rewrite List.map_app, list_loop_app.
    destruct (list_loop _ []) as [cs| | |]; cbn [pbind map list_loop]; try done.
    by rewrite Hnone.
  - intros rest desc commands. cbn [parse_items map fst snd registry_loop].
    by rewrite Hnone, Hk.
  - intros d desc commands Hnd Hget Hloop.
    rewrite (registry_loop_get _ _ _ _ _ key Hloop) by (by rewrite ?keys_each_pair).
    rewrite get_each_pair, Hget. cbn [option_map]. by rewrite Hnone.
  - cbn. by rewrite Hnone.
Qed.

Lemma parse_non_node_witness :
  _parse_command Ex.config_path Pathlib.of_string (YList ([YStr "a"] ++ YBool true :: []))
  = PExit (ExpectedCommandInList (YBool true)).
Proof.
  refine (eq_trans
            (proj1 (proj2
               (parse_non_node Ex.config_path Pathlib.of_string (YBool true) "name"
                  eq_refl _)) [YStr "a"] []) _).
  - discriminate.
  - reflexivity.
Defined.

(** * The claims about the executor *)

(** C1, the statement of the specification fails, on both paths. A
    variable that was set before the call and is named in [set_env] is
    gone after a call that returns; and after a call that ends in a
    failure of the inner command the variable of [set_env] is still
    set. *)
Lemma scoped_frame_fails :
  ~ Spec.scoped_frame Ex.shell 2 Ex.scoped_ok Ex.with_K
  /\ ~ Spec.scoped_frame Ex.shell 2 Ex.scoped_failing Ex.fresh.
Proof.
  split; intros (_ & _ & H); apply (f_equal (fun m => m !! "K")) in H;
    vm_compute in H; discriminate.
Qed.

(** C1, as the code has it. For every [CommandObj] and every state, with
    a count that covers the node, [execute_command] ends, by returning or
    by raising, and then [ctx.throw] and [ctx.cwd] are what they were
    before the call, whatever the nesting inside. When the call returns,
    every key of [set_env] is absent from the environment (removed, not
    set back to an earlier value). A variable that no [set_env] in the
    node names has its earlier value on every path. *)
Theorem scoped_restores_ctx
    (shell : string -> State -> Z) (fuel : nat)
    (d : yaml) (inner : Node) (c : option Path) (ee : list string)
    (se : list (string * string)) (t : yaml) (st : State) (key : string)
    (Hfuel : height (CommandObj d inner c ee se t) <= fuel) :
  let r := execute_command shell fuel (CommandObj d inner c ee se t) st in
  fst r <> OutOfFuel
  /\ ctx_throw (snd r) = ctx_throw st
  /\ ctx_cwd (snd r) = ctx_cwd st
  /\ (fst r = Return tt -> In key (PyDict.keys se) -> environ (snd r) !! key = None)
  /\ (sets_key key (CommandObj d inner c ee se t) = false ->
      environ (snd r) !! key = environ st !! key).
Proof.
  cbv zeta. split; [by apply execute_command_returns|].
  destruct (command_obj_restores_ctx shell fuel d inner c ee se t st) as [Ht Hc].
  split; [exact Ht|]. split; [exact Hc|]. split; [|by apply execute_command_environ].
  destruct fuel as [|fuel]; [done|]. rewrite execute_command_obj.
  destruct (for_each _ ee _) as [[[]| |] st2]; [|done..].
  unfold leave_scope. destruct (fst (scope_body _ _ _ _)) as [[]| |]; [|done..].
  intros _ Hin. cbn [snd]. by apply remove_set_env_lookup.
Qed.

Lemma scoped_restores_ctx_witness :
  environ (snd (execute_command Ex.shell 2 Ex.scoped_ok Ex.with_K)) !! "K" = None.
Proof.
  refine (proj1 (proj2 (proj2 (proj2
            (scoped_restores_ctx Ex.shell 2 (YStr "") (SimpleCommand "true") None []
               [("K", "new")] YNull Ex.with_K "K" _)))) _ _).
  - simpl. lia.
  - reflexivity.
  - simpl. by left.
Defined.

(** C4, the statement of the specification fails: the process is in
    [/tmp] after a scope with [cwd: /tmp] entered from [/home]. *)
Lemma restores_process_cwd_fails :
  ~ Spec.restores_process_cwd Ex.shell 2 Ex.scoped_in_tmp Ex.fresh.
Proof. unfold Spec.restores_process_cwd. vm_compute. discriminate. Qed.

(** C4, as the code has it. A [CommandObj] with [cwd] set, whose
    required variables are there, changes the working directory of the
    process to it; when it ends, by returning or by a failure raised
    inside, [ctx.cwd] is what it was before the call, and no call changes
    the directory of the process back: with no further [CommandObj]
    inside, the process is still in the directory of the scope. *)
Theorem scoped_cwd_not_restored
    (shell : string -> State -> Z) (fuel : nat)
    (d : yaml) (inner : Node) (c : Path) (ee : list string)
    (se : list (string * string)) (t : yaml) (st : State)
    (Hfuel : height (CommandObj d inner (Some c) ee se t) <= fuel)
    (Hinner : scope_free inner = true)
    (Henv : forall name, In name ee ->
              PyDict.has name se = true \/ is_Some (environ st !! name)) :
  let r := execute_command shell fuel (CommandObj d inner (Some c) ee se t) st in
  fst r <> OutOfFuel
  /\ ctx_cwd (snd r) = ctx_cwd st
  /\ process_cwd (snd r) = c.
Proof.
  cbv zeta. split; [by apply execute_command_returns|].
  split; [apply (command_obj_restores_ctx shell fuel d inner (Some c) ee se t st)|].
  destruct fuel as [|fuel]; [cbn [height] in Hfuel; lia|]. rewrite execute_command_obj.
  rewrite ensure_env_passes.
  2:{ intros name Hin. destruct (Henv name Hin) as [H|H].
      - by apply apply_set_env_has.
      - by apply apply_set_env_keeps. }
  set (st5 := enter_scope t (Some c) (apply_set_env se st)).
  assert (H5 : process_cwd st5 = c) by reflexivity.
  assert (H6 : process_cwd (snd (scope_body shell fuel inner st5)) = c).
  { rewrite <- H5. unfold scope_body. destruct (is_Command inner).
    { by apply execute_command_process_cwd. }
    destruct (is_CommandRegistry inner); [|done].
    pose proof (get_command_frame process_cwd (fun _ _ => eq_refl) (fun _ _ => eq_refl)
                  inner st5) as Hg.
    destruct (get_command inner st5) as [[sub| |] st5'] eqn:Eg; cbn [snd] in Hg |- *;
      try done.
    rewrite execute_command_process_cwd; [done|]. by eapply get_command_scope_free. }
  unfold leave_scope. destruct (fst (scope_body _ _ _ _)) as [[]| |]; cbn [snd]; try done.
  by destruct (remove_set_env_ctx se
                 (restore_ctx (ctx_throw (apply_set_env se st)) (ctx_cwd (apply_set_env se st))
                    (snd (scope_body shell fuel inner st5)))) as (_ & _ & -> & _).
Qed.

Lemma scoped_cwd_not_restored_witness :
  process_cwd (snd (execute_command Ex.shell 2 Ex.scoped_in_tmp Ex.fresh)) = Ex.tmp.
Proof.
  refine (proj2 (proj2
            (scoped_cwd_not_restored Ex.shell 2 (YStr "") (SimpleCommand "true") Ex.tmp []
               [] YNull Ex.fresh _ _ _))).
  - simpl. lia.
  - reflexivity.
  - simpl. tauto.
Defined.

(** ** The top-level call *)

Section TopLevel.

Variable shell : string -> State -> Z.

Lemma execute_body_returns config args st :
  fst (execute_body shell config args st) <> OutOfFuel.
Proof.
  unfold execute_body.
  pose proof (get_command_not_OutOfFuel (reg config) (new_ExecCtx args st)) as Hg.
  destruct (get_command _ _) as [[cmd| |] st'] eqn:E; try done.
  apply execute_command_returns. apply get_command_height in E. lia.
Qed.

Lemma execute_body_announced config args st :
  announced st (execute_body shell config args st).
Proof.
  unfold execute_body.
  pose proof (get_command_announced (reg config) (new_ExecCtx args st)) as Hg.
  destruct (get_command _ _) as [[cmd| |] st'] eqn:E.
  - unfold announced in Hg. cbn [fst snd] in Hg.
    eapply (announced_transfer st' st); [exact (eq_sym Hg)| | |
      apply execute_command_announced]; [done|].
    by destruct (fst _) as [?|?|].
  - eapply (announced_transfer (new_ExecCtx args st) st); [| | |exact Hg]; done.
  - eapply (announced_transfer (new_ExecCtx args st) st); [| | |exact Hg]; done.
Qed.

End TopLevel.

(** C2, the statement of the specification fails, for both kinds of
    error. A command that fails under [throw: true] raises, the exception
    is swallowed by [except Exception: pass], [execute] returns and the
    process leaves with status 0. An unknown command name ends in
    [exit(1)], whose [SystemExit] is no [Exception] and is not caught at
    that boundary. *)
Lemma error_caught_exits_nonzero_fails :
  ~ Spec.error_caught_exits_nonzero Ex.shell Ex.failing_config ["a"] Ex.fresh
  /\ ~ Spec.error_caught_exits_nonzero Ex.shell Ex.failing_config ["b"] Ex.fresh.
Proof.
  split; intros H.
  - destruct (H (CommandFailure 1)
                (snd (execute_body Ex.shell Ex.failing_config ["a"] Ex.fresh)))
      as (_ & code & Hstatus & Hcode).
    + vm_compute. reflexivity.
    + vm_compute in Hstatus. injection Hstatus as <-. by apply Hcode.
  - destruct (H (SystemExit 1)
                (snd (execute_body Ex.shell Ex.failing_config ["b"] Ex.fresh)))
      as (Hcaught & _).
    + vm_compute. reflexivity.
    + discriminate Hcaught.
Qed.

(** C2, as the code has it. The body of [execute] always ends, by
    returning or by raising. When it ends in the [exit(1)] of a missing
    or unknown command name or of a missing environment variable, the
    error report has been printed, the [SystemExit] is not caught by
    [except Exception], and the process leaves with status 1. When it
    ends in any other exception, a command failure under [throw]
    included, nothing has been printed, the exception is caught and
    dropped, [execute] returns and the process leaves with status 0. *)
Theorem execute_error_paths
    (shell : string -> State -> Z) (config : RunConfig) (args : list string) (st : State) :
  let body := execute_body shell config args st in
  let final := execute shell config args st in
  fst body <> OutOfFuel
  /\ snd final = snd body
  /\ match fst body with
     | Raise (SystemExit code) =>
         code = 1%Z
         /\ fst final = Raise (SystemExit 1)
         /\ exit_status (fst final) = Some 1%Z
         /\ exists m ms, stdout (snd final) = stdout st ++ m :: ms
                         /\ announces_error m = true
     | Raise _ =>
         fst final = Return tt
         /\ exit_status (fst final) = Some 0%Z
         /\ stdout (snd final) = stdout st
     | _ => fst final = fst body /\ stdout (snd final) = stdout st
     end
  /\ execute Ex.shell Ex.failing_config ["a"] Ex.fresh
       = (Return tt,
          mkState [] (YBool false) (Some Ex.home) ∅ Ex.home [] [("false", Ex.home)])
  /\ execute Ex.shell Ex.failing_config ["b"] Ex.fresh
       = (Raise (SystemExit 1),
          mkState [] (YBool false) (Some Ex.home) ∅ Ex.home
                  [UnknownCommand "b"; AvailableCommands ["a"]] [])
  /\ execute Ex.shell Ex.failing_config [] Ex.fresh
       = (Raise (SystemExit 1),
          mkState [] (YBool false) (Some Ex.home) ∅ Ex.home
                  [MissingCommands; AvailableCommands ["a"]] [])
  /\ execute Ex.shell Ex.token_config ["deploy"] Ex.fresh
       = (Raise (SystemExit 1),
          mkState [] (YBool false) (Some Ex.home) ∅ Ex.home
                  [MissingEnvironmentVariable "TOKEN"; WhileExecutingCommand Ex.needs_token]
                  []).
Proof.
  cbv zeta. split; [apply execute_body_returns|].
  pose proof (execute_body_announced shell config args st) as Ha.
  unfold execute, announced in *.
  destruct (execute_body shell config args st) as [[[]|[code|status|e]|] st'];
    cbn [fst snd is_Exception exit_status] in *.
  - repeat split; try done.
  - destruct Ha as (-> & m & ms & Hout & Hm). repeat split; try done. by exists m, ms.
  - repeat split; try done.
  - repeat split; try done.
  - repeat split; try done.
Qed.

(** * Further properties of the code *)

(** ** Dictionaries, continued *)

Lemma PyDict_has_In {V} (k : string) (d : list (string * V)) :
  PyDict.has k d = true <-> In k (PyDict.keys d).
Proof.
  unfold PyDict.has. destruct (PyDict.get k d) eqn:E.
  - split; [|done]. intros _. apply PyDict_get_In in E.
    apply (List.in_map fst) in E. exact E.
  - apply PyDict_get_None_keys in E. split; [done|]. intros H. by destruct E.
Qed.

Lemma PyDict_has_not_In {V} (k : string) (d : list (string * V)) :
  PyDict.has k d = false <-> ~ In k (PyDict.keys d).
Proof.
  rewrite <- PyDict_has_In. destruct (PyDict.has k d); intuition congruence.
Qed.

Lemma PyDict_keys_set {V} (k : string) (v : V) d :
  PyDict.keys (PyDict.set k v d) =
    if PyDict.has k d then PyDict.keys d else PyDict.keys d ++ [k].
Proof.
  induction d as [|[k' v'] r IH]; [done|].
  unfold PyDict.has in *. cbn [PyDict.set PyDict.get PyDict.keys map fst].
  destruct (String.eqb k' k) eqn:E.
  - apply String.eqb_eq in E. by subst.
  - cbn [map fst]. fold (PyDict.keys (PyDict.set k v r)). rewrite IH.
    by destruct (PyDict.get k r).
Qed.

Lemma PyDict_set_NoDup {V} (k : string) (v : V) d :
  List.NoDup (PyDict.keys d) -> List.NoDup (PyDict.keys (PyDict.set k v d)).
Proof.
  intros Hnd. rewrite PyDict_keys_set. destruct (PyDict.has k d) eqn:E; [done|].
  apply PyDict_has_not_In in E.
  apply NoDup_ListNoDup. apply NoDup_ListNoDup in Hnd.
  apply NoDup_app. split; [done|]. split.
  - intros x Hx [->|[]]%list_elem_of_In. apply E. by apply list_elem_of_In.
  - apply NoDup_singleton.
Qed.

Lemma PyDict_keys_update {V} (d other : list (string * V)) :
  List.NoDup (PyDict.keys other) ->
  PyDict.keys (PyDict.update d other) =
    PyDict.keys d ++ List.filter (fun k => negb (PyDict.has k d)) (PyDict.keys other).
Proof.
  unfold PyDict.update. revert d.
  induction other as [|[k v] r IH]; intros d Hnd.
  { cbn. by rewrite List.app_nil_r. }
  inversion Hnd as [|? ? Hnotin Hnd']; subst.
  cbn [fold_left fst snd].
  change (PyDict.keys ((k, v) :: r)) with (k :: PyDict.keys r). cbn [List.filter].
  rewrite (IH _ Hnd'). rewrite PyDict_keys_set.
  assert (Hsame : forall d' : list (string * V),
             (forall k', In k' (PyDict.keys r) -> PyDict.has k' d' = PyDict.has k' d) ->
             List.filter (fun k' => negb (PyDict.has k' d')) (PyDict.keys r)
             = List.filter (fun k' => negb (PyDict.has k' d)) (PyDict.keys r)).
  { intros d' H. apply List.filter_ext_in. intros k' Hk'. by rewrite H. }
  destruct (PyDict.has k d) eqn:E; cbn [negb].
  - f_equal. apply Hsame. intros k' Hk'.
    destruct (PyDict.has k' (PyDict.set k v d)) eqn:E1, (PyDict.has k' d) eqn:E2; try done.
    + apply PyDict_has_In in E1. rewrite PyDict_keys_set, E in E1.
      apply PyDict_has_In in E1. congruence.
    + apply PyDict_has_In in E2. apply PyDict_has_not_In in E1.
      rewrite PyDict_keys_set, E in E1. done.
  - rewrite <- List.app_assoc. cbn [app]. do 2 f_equal. apply Hsame. intros k' Hk'.
    destruct (PyDict.has k' (PyDict.set k v d)) eqn:E1, (PyDict.has k' d) eqn:E2; try done.
    + apply PyDict_has_In in E1. rewrite PyDict_keys_set, E in E1.
      apply List.in_app_or in E1 as [E1|[->|[]]]; [|done].
      apply PyDict_has_In in E1. congruence.
    + apply PyDict_has_In in E2. apply PyDict_has_not_In in E1.
      rewrite PyDict_keys_set, E in E1. destruct E1. apply List.in_or_app. by left.
Qed.

Lemma PyDict_update_NoDup {V} (d other : list (string * V)) :
  List.NoDup (PyDict.keys d) -> List.NoDup (PyDict.keys (PyDict.update d other)).
Proof.
  unfold PyDict.update. revert d.
  induction other as [|[k v] r IH]; intros d Hnd; [done|].
  cbn [fold_left fst snd]. apply IH. by apply PyDict_set_NoDup.
Qed.

(** ** [__main__.py] *)

(** X1. With [EDITOR] unset, [_run_edit] never settles on [vim]: the
    editor it picks is [nvim] or [nano] and is installed, and when
    neither of the two is installed it reports that no editor was found
    and exits, also when [vim] is installed. With [EDITOR] set, that
    editor is taken whatever is installed. *)
Theorem run_edit_never_picks_vim (which : string -> bool) :
  (forall editor, _run_edit_editor None which = Editor editor ->
     editor <> "vim" /\ which editor = true /\ (editor = "nvim" \/ editor = "nano"))
  /\ (which "nvim" = false -> which "nano" = false ->
      _run_edit_editor None which = NoEditorFound)
  /\ (forall editor, _run_edit_editor (Some editor) which = Editor editor).
Proof.
  unfold _run_edit_editor. split; [|split].
  - intros editor. destruct (which "nvim") eqn:E1; [|destruct (which "nano") eqn:E2].
    + intros [= <-]. repeat split; [done|done|by left].
    + intros [= <-]. repeat split; [done|done|by right].
    + done.
  - by intros -> ->.
  - done.
Qed.

Lemma run_edit_never_picks_vim_witness :
  _run_edit_editor None Ex2.only_vim = NoEditorFound.
Proof.
  exact (proj1 (proj2 (run_edit_never_picks_vim Ex2.only_vim)) eq_refl eq_refl).
Defined.

(** X2. [_load_config] gives the project-level file precedence over the
    system-level one: with both present, a name is resolved to the
    child of the local configuration when it has the name and to the
    child of the system configuration otherwise, and the names stay
    pairwise different. With one file present that file is the
    configuration, and with none the call exits. *)
Theorem load_config_local_wins
    (ds dl : string) (cs cl : list (string * Node)) (name : string)
    (Hs : List.NoDup (PyDict.keys cs)) (Hl : List.NoDup (PyDict.keys cl)) :
  let sys := mkRunConfig (CommandRegistry ds cs) in
  let loc := mkRunConfig (CommandRegistry dl cl) in
  (exists commands,
      _load_config (Some sys) (Some loc) = Loaded (mkRunConfig (CommandRegistry ds commands))
      /\ PyDict.get name commands
         = match PyDict.get name cl with
           | Some child => Some child
           | None => PyDict.get name cs
           end
      /\ List.NoDup (PyDict.keys commands))
  /\ _load_config (Some sys) None = Loaded sys
  /\ _load_config None (Some loc) = Loaded loc
  /\ _load_config None None = NoConfigurationFile.
Proof.
  cbv zeta. split; [|done].
  exists (PyDict.update cs cl). split; [done|]. split.
  - by apply PyDict_get_update.
  - by apply PyDict_update_NoDup.
Qed.

Lemma load_config_local_wins_witness :
  exists commands,
    _load_config (Some Ex.system) (Some Ex.project)
      = Loaded (mkRunConfig (CommandRegistry "" commands))
    /\ PyDict.get "x" commands = Some (SimpleCommand "3")
    /\ List.NoDup (PyDict.keys commands).
Proof.
  refine (proj1 (load_config_local_wins "" ""
                   [("x", SimpleCommand "1"); ("y", SimpleCommand "2")]
                   [("x", SimpleCommand "3")] "x" _ _)).
  - repeat constructor; simpl; intuition discriminate.
  - repeat constructor; simpl; intuition discriminate.
Defined.

(** ** [RunConfig.override], the order of the names *)

(** X3. After [override] the names of [self] stand where they stood,
    followed by the names that only [other] has, in the order of
    [other]; no name is listed twice. *)
Theorem override_keeps_order
    (desc desc' : string) (commands commands' : list (string * Node))
    (Hself : List.NoDup (PyDict.keys commands))
    (Hother : List.NoDup (PyDict.keys commands')) :
  let merged := reg_commands (reg (override (mkRunConfig (CommandRegistry desc commands))
                                            (mkRunConfig (CommandRegistry desc' commands')))) in
  PyDict.keys merged
    = PyDict.keys commands
      ++ List.filter (fun k => negb (PyDict.has k commands)) (PyDict.keys commands')
  /\ List.NoDup (PyDict.keys merged).
Proof.
  cbv zeta. cbn [override reg reg_commands]. split.
  - by apply PyDict_keys_update.
  - by apply PyDict_update_NoDup.
Qed.

Lemma override_keeps_order_witness :
  PyDict.keys (reg_commands (reg (override Ex.system
     (mkRunConfig (CommandRegistry "" [("z", SimpleCommand "0"); ("x", SimpleCommand "3")])))))
  = ["x"; "y"; "z"].
Proof.
  refine (eq_trans
            (proj1 (override_keeps_order "" ""
                      [("x", SimpleCommand "1"); ("y", SimpleCommand "2")]
                      [("z", SimpleCommand "0"); ("x", SimpleCommand "3")] _ _)) _).
  - repeat constructor; simpl; intuition discriminate.
  - repeat constructor; simpl; intuition discriminate.
  - reflexivity.
Defined.

(** ** [CommandRegistry.print_usage] *)

Lemma desc_of_None cmd : desc_of cmd = None <-> cmd = PyNone.
Proof. by destruct cmd. Qed.

Lemma usage_lines_app w pre rest :
  List.Forall (fun kc => snd kc <> PyNone) pre ->
  usage_lines w (pre ++ rest) = usage_lines w pre ++ usage_lines w rest
  /\ length (usage_lines w pre) = length pre.
Proof.
  induction 1 as [|[k c] pre Hc Hpre [IH1 IH2]]; [done|].
  cbn [app usage_lines snd] in *. destruct (desc_of c) eqn:E.
  - cbn [app length]. by rewrite IH1, IH2.
  - by apply desc_of_None in E.
Qed.

Lemma string_length_append (a b : string) :
  String.length (String.append a b) = String.length a + String.length b.
Proof.
  induction a as [|c a IH]; [done|].
  change (S (String.length (String.append a b)) = S (String.length a + String.length b)).
  by rewrite IH.
Qed.

Lemma string_length_of_list (l : list ascii) :
  String.length (string_of_list_ascii l) = length l.
Proof.
  induction l as [|c l IH]; [done|].
  change (S (String.length (string_of_list_ascii l)) = S (length l)). by rewrite IH.
Qed.

Lemma ljust_length s w : String.length (ljust s w) = Nat.max (String.length s) w.
Proof.
  unfold ljust. rewrite string_length_append, string_length_of_list, List.repeat_length. lia.
Qed.

Lemma ljust_prefix s w : PyStr.startswith (ljust s w) s = true.
Proof.
  unfold ljust. generalize (string_of_list_ascii (repeat " "%char (w - String.length s))).
  intros pad. induction s as [|c s IH]; [by destruct pad|].
  change (String.append (String c s) pad) with (String c (String.append s pad)).
  cbn [PyStr.startswith]. by rewrite Ascii.eqb_refl.
Qed.

Lemma max_length_bound (names : list string) name :
  In name names -> String.length name <= fold_right Nat.max 0 (map String.length names).
Proof.
  induction names as [|n r IH]; [done|]. cbn [map fold_right].
  intros [->|Hin]; [lia|]. specialize (IH Hin). lia.
Qed.

Lemma usage_lines_In w items n d :
  In (CommandLine n d) (usage_lines w items) ->
  exists cmd_name cmd, In (cmd_name, cmd) items /\ n = ljust cmd_name w /\ desc_of cmd = Some d.
Proof.
  induction items as [|[k c] r IH]; [done|]. cbn [usage_lines].
  destruct (desc_of c) as [d'|] eqn:E; [|done].
  intros [[= <- <-]|Hin].
  - exists k, c. split; [by left|done].
  - destruct (IH Hin) as (k' & c' & Hin' & Hn & Hd). exists k', c'. split; [by right|done].
Qed.

(** X4. [print_usage] lists the children in order and stops, without
    any message, at the first child that is bound to [None]: that child
    and every child after it are missing from the listing. A registry
    without children prints the header alone, and a registry without a
    [None] child prints one line per child. *)
Theorem print_usage_stops_at_None
    (desc : string) (pre : list (string * Node)) (name : string)
    (post : list (string * Node))
    (Hpre : List.Forall (fun kc => snd kc <> PyNone) pre) :
  (exists w,
      print_usage (CommandRegistry desc (pre ++ (name, PyNone) :: post))
        = CommandsHeader :: usage_lines w pre
      /\ length (usage_lines w pre) = length pre)
  /\ length (print_usage (CommandRegistry desc pre)) = S (length pre)
  /\ print_usage (CommandRegistry desc []) = [CommandsHeader].
Proof.
  split; [|split; [|done]].
  - unfold print_usage, max_cmd_len. cbn [reg_commands].
    destruct (PyDict.keys (pre ++ (name, PyNone) :: post)) as [|k ks] eqn:E.
    { unfold PyDict.keys in E. rewrite List.map_app in E. by destruct (map fst pre). }
    eexists. destruct (usage_lines_app (fold_right Nat.max 0 (map String.length (k :: ks)))
                         pre ((name, PyNone) :: post) Hpre) as [-> Hlen].
    cbn [usage_lines desc_of]. by rewrite List.app_nil_r.
  - unfold print_usage, max_cmd_len. cbn [reg_commands length].
    destruct pre as [|kc pre']; [done|]. cbn [PyDict.keys map]. f_equal.
    eapply proj2. by apply (usage_lines_app _ (kc :: pre') []).
Qed.

Lemma print_usage_stops_at_None_witness :
  exists w,
    print_usage Ex2.with_none
      = CommandsHeader ::
          usage_lines w [("build", SimpleCommand "make");
                         ("test", CommandRegistry "tests" [("unit", SimpleCommand "pytest")])]
    /\ length (usage_lines w
                 [("build", SimpleCommand "make");
                  ("test", CommandRegistry "tests" [("unit", SimpleCommand "pytest")])]) = 2.
Proof.
  refine (proj1 (print_usage_stops_at_None ""
                   [("build", SimpleCommand "make");
                    ("test", CommandRegistry "tests" [("unit", SimpleCommand "pytest")])]
                   "broken" [("zz", SimpleCommand "true")] _)).
  repeat constructor; discriminate.
Defined.

(** X5. Every name that [print_usage] lists is the name of a child,
    padded on the right to the length of the longest name of the
    registry, so that the descriptions start in one column. *)
Theorem print_usage_aligns (self : Node) (n : string) (d : yaml)
    (Hline : In (CommandLine n d) (print_usage self)) :
  String.length n
    = fold_right Nat.max 0 (map String.length (PyDict.keys (reg_commands self)))
  /\ exists cmd_name cmd,
       In (cmd_name, cmd) (reg_commands self)
       /\ PyStr.startswith n cmd_name = true
       /\ desc_of cmd = Some d.
Proof.
  unfold print_usage, max_cmd_len in Hline. destruct Hline as [|Hline]; [done|].
  destruct (PyDict.keys (reg_commands self)) as [|k ks] eqn:E; [done|].
  apply usage_lines_In in Hline as (cmd_name & cmd & Hin & -> & Hd).
  split.
  - rewrite ljust_length. apply Nat.max_r. apply max_length_bound.
    rewrite <- E. by apply (List.in_map fst) in Hin.
  - exists cmd_name, cmd. split; [done|]. split; [apply ljust_prefix|done].
Qed.

Lemma print_usage_aligns_witness :
  String.length (ljust "zz" 6)
    = fold_right Nat.max 0 (map String.length (PyDict.keys (reg_commands
        (CommandRegistry "" [("zz", SimpleCommand "true"); ("deploy", PyNone)])))).
Proof.
  refine (proj1 (print_usage_aligns
                   (CommandRegistry "" [("zz", SimpleCommand "true"); ("deploy", PyNone)])
                   (ljust "zz" 6) (YStr "") _)).
  simpl. right. by left.
Defined.

(** ** [ConfigParser.resolve_cwd] *)

Lemma rstrip_cons c s :
  PyStr.isspace c = false -> PyStr.rstrip (String c s) = String c (PyStr.rstrip s).
Proof. intros H. cbn [PyStr.rstrip]. rewrite H. by destruct (PyStr.rstrip s). Qed.

Lemma strip_this_dir rest :
  PyStr.strip (String.append "$THIS_DIR" rest)
  = String.append "$THIS_DIR" (PyStr.rstrip rest).
Proof.
  unfold PyStr.strip.
  change (String.append "$THIS_DIR" rest)
    with (String "$" (String "T" (String "H" (String "I" (String "S" (String "_"
            (String "D" (String "I" (String "R" rest))))))))).
  cbn [PyStr.lstrip]. change (PyStr.isspace "$") with false. cbv iota.
  rewrite !rstrip_cons by reflexivity.
  reflexivity.
Qed.

Lemma startswith_append p s : PyStr.startswith (String.append p s) p = true.
Proof.
  induction p as [|c p IH]; [by destruct s|].
  change (String.append (String c p) s) with (String c (String.append p s)).
  cbn [PyStr.startswith]. by rewrite Ascii.eqb_refl.
Qed.

Lemma drop_append p s : PyStr.drop (String.length p) (String.append p s) = s.
Proof. induction p as [|c p IH]; [done|]. apply IH. Qed.

(** X6. Whatever follows the token [$THIS_DIR], when it starts with a
    slash (as in [$THIS_DIR/sub]) the result of [resolve_cwd] does not
    depend on where the configuration file is: it is the parent of the
    remainder read as an absolute path. *)
Theorem resolve_cwd_absolute_remainder
    (file_path : Path) (path_resolve : string -> Path) (rest : string)
    (Hrest : PyStr.startswith rest "/" = true) :
  resolve_cwd file_path path_resolve (String.append "$THIS_DIR" rest)
  = Pathlib.parent (Pathlib.of_string rest).
Proof.
  unfold resolve_cwd. rewrite strip_this_dir, startswith_append.
  unfold PyStr.removeprefix. rewrite startswith_append, drop_append.
  unfold Pathlib.div. by rewrite Hrest.
Qed.

Lemma resolve_cwd_absolute_remainder_witness :
  resolve_cwd Ex.config_path Pathlib.of_string (String.append "$THIS_DIR" "/build/out")
  = Pathlib.parent (Pathlib.of_string "/build/out").
Proof.
  exact (resolve_cwd_absolute_remainder Ex.config_path Pathlib.of_string "/build/out"
           eq_refl).
Defined.

(** X7. The token [$THIS_DIR] on its own resolves to the directory that
    holds the configuration file, wherever the file is; trailing white
    space after the token makes it the path of the file itself when the
    file path has a component. *)
Theorem resolve_cwd_bare_token (file_path : Path) (path_resolve : string -> Path) :
  resolve_cwd file_path path_resolve "$THIS_DIR" = Pathlib.parent file_path
  /\ (Pathlib.tail file_path <> [] ->
      resolve_cwd file_path path_resolve "$THIS_DIR " = file_path).
Proof.
  destruct file_path as [r t]. unfold resolve_cwd. split.
  - change (PyStr.startswith (PyStr.strip "$THIS_DIR") "$THIS_DIR") with true.
    change (PyStr.removeprefix "$THIS_DIR" "$THIS_DIR") with "".
    unfold Pathlib.div. change (PyStr.startswith "" "/") with false.
    change (Pathlib.tail (Pathlib.of_string "")) with (@nil string).
    cbn [Pathlib.root Pathlib.tail]. by rewrite List.app_nil_r.
  - cbn [Pathlib.tail]. intros Ht.
    change (PyStr.startswith (PyStr.strip "$THIS_DIR ") "$THIS_DIR") with true.
    change (PyStr.removeprefix "$THIS_DIR " "$THIS_DIR") with " ".
    unfold Pathlib.div. change (PyStr.startswith " " "/") with false.
    change (Pathlib.tail (Pathlib.of_string " ")) with [" "].
    unfold Pathlib.parent. cbn [Pathlib.root Pathlib.tail].
    destruct (t ++ [" "]) as [|x l] eqn:E; [by destruct t|]. rewrite <- E.
    by rewrite List.removelast_last.
Qed.

Lemma resolve_cwd_bare_token_witness :
  resolve_cwd Ex.config_path Pathlib.of_string "$THIS_DIR " = Ex.config_path.
Proof.
  refine (proj2 (resolve_cwd_bare_token Ex.config_path Pathlib.of_string) _).
  discriminate.
Defined.

(** ** The executor, continued *)

Section MoreScopeFacts.

Variable shell : string -> State -> Z.

Local Abbreviation exec := (execute_command shell).

Lemma apply_set_env_other se st name :
  PyDict.has name se = false ->
  environ (apply_set_env se st) !! name = environ st !! name.
Proof.
  intros Hse. unfold apply_set_env.
  apply (fold_left_frame (fun s => environ s !! name)).
  intros [k v] st1 Hin. cbn. apply lookup_insert_ne. by eapply PyDict_has_false_In.
Qed.

Lemma ensure_env_fails cmd ee st name :
  In name ee -> sh.has_env name st = false ->
  exists pre missing post,
    ee = pre ++ missing :: post
    /\ (forall n, In n pre -> sh.has_env n st = true)
    /\ sh.has_env missing st = false
    /\ for_each (ensure_env_body cmd) ee st
       = (Raise (SystemExit 1),
          print [MissingEnvironmentVariable missing; WhileExecutingCommand cmd] st).
Proof.
  induction ee as [|n r IH]; [done|]. intros Hin Hname.
  cbn [for_each]. unfold ensure_env_body at 1.
  destruct (sh.has_env n st) eqn:E; cbn [negb].
  - destruct Hin as [->|Hin]; [congruence|].
    destruct (IH Hin Hname) as (pre & m & post & -> & Hpre & Hmiss & Heq).
    exists (n :: pre), m, post. split; [done|]. split; [|done].
    intros n' [<-|Hn']; [done|by apply Hpre].
  - exists [], n, r. split; [done|]. split; [by intros ? []|done].
Qed.

(** The state in which the inner node of a [CommandObj] starts, when
    the required variables are there. *)
Lemma command_obj_body fuel d inner c ee se t st :
  (forall name, In name ee ->
     PyDict.has name se = true \/ is_Some (environ st !! name)) ->
  exec (S fuel) (CommandObj d inner c ee se t) st
  = leave_scope se (ctx_throw st) (ctx_cwd st)
      (scope_body shell fuel inner (enter_scope t c (apply_set_env se st))).
Proof.
  intros Henv. rewrite execute_command_obj, ensure_env_passes.
  - destruct (apply_set_env_ctx se st) as (-> & -> & _). done.
  - intros name Hin. destruct (Henv name Hin) as [H|H].
    + by apply apply_set_env_has.
    + by apply apply_set_env_keeps.
Qed.

Lemma leave_scope_process_cwd se throw cwd r :
  process_cwd (snd (leave_scope se throw cwd r)) = process_cwd (snd r)
  /\ started (snd (leave_scope se throw cwd r)) = started (snd r).
Proof.
  unfold leave_scope, remove_set_env. destruct (fst r) as [[]| |]; cbn [snd]; try done.
  split.
  - by rewrite (fold_left_frame process_cwd).
  - by rewrite (fold_left_frame started).
Qed.

Lemma scope_body_process_cwd fuel inner st :
  scope_free inner = true ->
  process_cwd (snd (scope_body shell fuel inner st)) = process_cwd st.
Proof.
  intros Hinner. unfold scope_body. destruct (is_Command inner).
  { by apply execute_command_process_cwd. }
  destruct (is_CommandRegistry inner); [|done].
  pose proof (get_command_frame process_cwd (fun _ _ => eq_refl) (fun _ _ => eq_refl)
                inner st) as Hg.
  destruct (get_command inner st) as [[sub| |] st'] eqn:Eg; cbn [snd] in Hg |- *; try done.
  rewrite execute_command_process_cwd; [done|]. by eapply get_command_scope_free.
Qed.

End MoreScopeFacts.

(** X8. A sequence is a scope for the directives in it: a [ThrowConfig]
    decides the fate of the literals after it in the same sequence,
    whatever [ctx.throw] was outside, and when the sequence ends, by
    returning or by a failure, [ctx.throw] and [ctx.cwd] are what they
    were before it. *)
Theorem sequence_scopes_directives
    (shell : string -> State -> Z) (fuel : nat) (d : yaml)
    (commands : list Node) (t : yaml) (s : string) (rest : list Node) (st : State)
    (Hthrow : py_bool t = true)
    (Hstatus : shell s (set_ctx_throw t st) <> 0%Z) :
  let r := execute_command shell fuel (ListCommands d commands) st in
  let r' := execute_command shell (S (S fuel))
              (ListCommands d (ThrowConfig t :: SimpleCommand s :: rest)) st in
  ctx_throw (snd r) = ctx_throw st
  /\ ctx_cwd (snd r) = ctx_cwd st
  /\ fst r' = Raise (CommandFailure (shell s (set_ctx_throw t st)))
  /\ ctx_throw (snd r') = ctx_throw st
  /\ started (snd r') = started st ++ [(s, process_cwd st)].
Proof.
  cbv zeta. split; [|split].
  1,2: destruct fuel as [|fuel]; [done|]; by rewrite execute_command_list.
  assert (E : for_each (execute_command shell (S fuel))
                (ThrowConfig t :: SimpleCommand s :: rest) st
              = (Raise (CommandFailure (shell s (set_ctx_throw t st))),
                 snd (sh.cmd shell s t (set_ctx_throw t st)))).
  { cbn [for_each].
    change (execute_command shell (S fuel) (ThrowConfig t) st)
      with (Return tt, set_ctx_throw t st).
    cbv beta iota.
    change (execute_command shell (S fuel) (SimpleCommand s) (set_ctx_throw t st))
      with (sh.cmd shell s t (set_ctx_throw t st)).
    unfold sh.cmd. rewrite Hthrow.
    assert ((shell s (set_ctx_throw t st) =? 0)%Z = false) as -> by by apply Z.eqb_neq.
    reflexivity. }
  rewrite execute_command_list, E. cbn [fst snd]. split; [done|].
  unfold sh.cmd. by destruct (_ && _).
Qed.

Lemma sequence_scopes_directives_witness :
  ctx_throw (snd (execute_command Ex.shell 2
     (ListCommands (YStr "") [ThrowConfig (YBool true); SimpleCommand "false"; SimpleCommand "x"])
     Ex.fresh)) = ctx_throw Ex.fresh.
Proof.
  refine (proj1 (proj2 (proj2 (proj2
            (sequence_scopes_directives Ex.shell 0 (YStr "") [] (YBool true) "false"
               [SimpleCommand "x"] Ex.fresh _ _))))).
  - reflexivity.
  - vm_compute. lia.
Defined.

(** X9. When a required variable is neither given by [set_env] of the
    node nor present in the environment, a [CommandObj] exits with code 1
    before anything else happens: no subprocess is started, the context
    and the working directory are untouched; the variables of [set_env]
    have been set by then and stay set. The report names the missing
    variable that the loop over [ensure_env] meets first: every variable
    the loop visits before it is there. ([ensure_env] is a set; the list
    of the node is its iteration order, which Python takes from the
    hashes and not from the document.) *)
Theorem missing_env_stops_before_running
    (shell : string -> State -> Z) (fuel : nat)
    (d : yaml) (inner : Node) (c : option Path) (ee : list string)
    (se : list (string * string)) (t : yaml) (st : State) (name : string)
    (Hin : In name ee)
    (Hse : PyDict.has name se = false)
    (Henv : environ st !! name = None) :
  let cmd := CommandObj d inner c ee se t in
  exists pre missing post,
    ee = pre ++ missing :: post
    /\ (forall n, In n pre -> sh.has_env n (apply_set_env se st) = true)
    /\ sh.has_env missing (apply_set_env se st) = false
    /\ execute_command shell (S fuel) cmd st
       = (Raise (SystemExit 1),
          print [MissingEnvironmentVariable missing; WhileExecutingCommand cmd]
                (apply_set_env se st))
    /\ started (apply_set_env se st) = started st
    /\ process_cwd (apply_set_env se st) = process_cwd st
    /\ (forall key, PyDict.has key se = true ->
          sh.has_env key (apply_set_env se st) = true).
Proof.
  cbv zeta.
  assert (Hmiss : sh.has_env name (apply_set_env se st) = false).
  { unfold sh.has_env. by rewrite apply_set_env_other, Henv. }
  destruct (ensure_env_fails (CommandObj d inner c ee se t) ee _ name Hin Hmiss)
    as (pre & missing & post & Hee & Hpre & Hmissing & Heq).
  exists pre, missing, post.
  split; [done|]. split; [done|]. split; [done|]. split; [|split; [|split]].
  - by rewrite execute_command_obj, Heq.
  - unfold apply_set_env. by apply fold_left_frame.
  - unfold apply_set_env. by apply fold_left_frame.
  - intros key Hkey. by apply apply_set_env_has.
Qed.

Lemma missing_env_stops_before_running_witness :
  exists pre missing post,
    ["HOME"; "TOKEN"; "KEY"] = pre ++ missing :: post
    /\ (forall n, In n pre ->
          sh.has_env n (apply_set_env [("HOME", "/root")] Ex.fresh) = true)
    /\ sh.has_env missing (apply_set_env [("HOME", "/root")] Ex.fresh) = false
    /\ execute_command Ex.shell 1
         (CommandObj (YStr "") (SimpleCommand "true") None ["HOME"; "TOKEN"; "KEY"]
            [("HOME", "/root")] YNull) Ex.fresh
       = (Raise (SystemExit 1),
          print [MissingEnvironmentVariable missing;
                 WhileExecutingCommand
                   (CommandObj (YStr "") (SimpleCommand "true") None
                      ["HOME"; "TOKEN"; "KEY"] [("HOME", "/root")] YNull)]
                (apply_set_env [("HOME", "/root")] Ex.fresh))
    /\ started (apply_set_env [("HOME", "/root")] Ex.fresh) = started Ex.fresh
    /\ process_cwd (apply_set_env [("HOME", "/root")] Ex.fresh) = process_cwd Ex.fresh
    /\ (forall key, PyDict.has key [("HOME", "/root")] = true ->
          sh.has_env key (apply_set_env [("HOME", "/root")] Ex.fresh) = true).
Proof.
  refine (missing_env_stops_before_running Ex.shell 0 (YStr "") (SimpleCommand "true") None
            ["HOME"; "TOKEN"; "KEY"] [("HOME", "/root")] YNull Ex.fresh "KEY" _ _ _).
  - simpl. tauto.
  - reflexivity.
  - reflexivity.
Defined.

(** X10. A [CommandObj] without [cwd] still changes the working
    directory of the process when its body is reached: to [ctx.cwd],
    when the context has one. Only with no [ctx.cwd] is the directory
    left alone. With no further [CommandObj] inside, that is where the
    process is when the scope has ended. *)
Theorem scope_without_cwd_enters_ctx_cwd
    (shell : string -> State -> Z) (fuel : nat)
    (d : yaml) (inner : Node) (ee : list string)
    (se : list (string * string)) (t : yaml) (st : State)
    (Hinner : scope_free inner = true)
    (Henv : forall name, In name ee ->
              PyDict.has name se = true \/ is_Some (environ st !! name)) :
  process_cwd (snd (execute_command shell (S fuel) (CommandObj d inner None ee se t) st))
  = match ctx_cwd st with
    | Some dir => dir
    | None => process_cwd st
    end.
Proof.
  rewrite command_obj_body by done.
  rewrite (proj1 (leave_scope_process_cwd _ _ _ _)).
  rewrite scope_body_process_cwd by done.
  unfold enter_scope. cbn [ctx_cwd set_ctx_cwd set_ctx_throw].
  destruct (apply_set_env_ctx se st) as (_ & -> & Hp & _).
  destruct (ctx_cwd st); cbn; [done|exact Hp].
Qed.

Lemma scope_without_cwd_enters_ctx_cwd_witness :
  process_cwd (snd (execute_command Ex.shell 2 Ex.scoped_ok Ex2.in_srv))
  = Pathlib.of_string "/srv".
Proof.
  refine (scope_without_cwd_enters_ctx_cwd Ex.shell 1 (YStr "") (SimpleCommand "true") []
            [("K", "new")] YNull Ex2.in_srv _ _).
  - reflexivity.
  - simpl. tauto.
Defined.

(** X11. A literal inside a [CommandObj] is started in the directory of
    the scope ([cwd] of the node, else [ctx.cwd], else where the process
    is), and whether its non-zero status is a failure is decided by
    [throw] of the node when the node gives one, [false] included, and
    by [ctx.throw] otherwise. *)
Theorem scoped_literal_uses_overrides
    (shell : string -> State -> Z) (fuel : nat)
    (d : yaml) (s : string) (c : option Path) (ee : list string)
    (se : list (string * string)) (t : yaml) (st : State)
    (Henv : forall name, In name ee ->
              PyDict.has name se = true \/ is_Some (environ st !! name)) :
  let r := execute_command shell (S (S fuel)) (CommandObj d (SimpleCommand s) c ee se t) st in
  let throw := match t with YNull => ctx_throw st | _ => t end in
  let dir := match c with
             | Some dir => dir
             | None => match ctx_cwd st with Some dir => dir | None => process_cwd st end
             end in
  let status := shell s (enter_scope t c (apply_set_env se st)) in
  fst r = (if negb (Z.eqb status 0) && py_bool throw
           then Raise (CommandFailure status) else Return tt)
  /\ started (snd r) = started st ++ [(s, dir)].
Proof.
  cbv zeta. rewrite command_obj_body by done.
  unfold scope_body. cbn [is_Command].
  change (execute_command shell (S fuel) (SimpleCommand s) ?x)
    with (sh.cmd shell s (ctx_throw x) x).
  set (st5 := enter_scope t c (apply_set_env se st)).
  destruct (apply_set_env_ctx se st) as (Ht & Hc & Hp & _).
  assert (Hthrow : ctx_throw st5 = match t with YNull => ctx_throw st | _ => t end).
  { unfold st5, enter_scope. destruct (ctx_cwd (set_ctx_cwd _ _)); cbn; rewrite ?Ht;
      by destruct t. }
  assert (Hdir : process_cwd st5
                 = match c with
                   | Some dir => dir
                   | None => match ctx_cwd st with
                             | Some dir => dir
                             | None => process_cwd st
                             end
                   end).
  { unfold st5, enter_scope. cbn [ctx_cwd set_ctx_cwd set_ctx_throw].
    destruct c; [done|]. rewrite Hc. destruct (ctx_cwd st); cbn; [done|exact Hp]. }
  assert (Hstarted : started st5 = started st).
  { unfold st5, enter_scope. destruct (ctx_cwd (set_ctx_cwd _ _)); cbn;
      unfold apply_set_env; by apply fold_left_frame. }
  rewrite (proj2 (leave_scope_process_cwd _ _ _ _)). unfold leave_scope, sh.cmd.
  rewrite Hthrow. destruct (_ && _); cbn [fst snd started]; by rewrite Hstarted, Hdir.
Qed.

Lemma scoped_literal_uses_overrides_witness :
  fst (execute_command Ex.shell 2
         (CommandObj (YStr "") (SimpleCommand "false") None [] [] (YBool false))
         (set_ctx_throw (YBool true) Ex.fresh))
  = (if negb (Z.eqb (Ex.shell "false"
                       (enter_scope (YBool false) None
                          (apply_set_env [] (set_ctx_throw (YBool true) Ex.fresh)))) 0)
        && py_bool (YBool false)
     then Raise (CommandFailure (Ex.shell "false"
                       (enter_scope (YBool false) None
                          (apply_set_env [] (set_ctx_throw (YBool true) Ex.fresh)))))
     else Return tt).
Proof.
  refine (proj1 (scoped_literal_uses_overrides Ex.shell 0 (YStr "") "false" None [] []
                   (YBool false) (set_ctx_throw (YBool true) Ex.fresh) _)).
  simpl. tauto.
Defined.

(** ** Resolution, as a path through the registries *)

Lemma resolves_not_registry path reg n :
  resolves path reg n -> is_CommandRegistry n = false.
Proof.
  revert reg. induction path as [|name more IH]; intros reg; [done|].
  cbn [resolves]. intros [_ H].
  destruct (PyDict.get name (reg_commands reg)) as [next|]; [|done].
  destruct (is_CommandRegistry next) eqn:E; [by eapply IH|].
  destruct H as [_ <-]. done.
Qed.

Lemma get_command_resolves_path reg st n st' :
  get_command reg st = (Return n, st') ->
  exists path, resolves path reg n
               /\ ctx_args st = path ++ ctx_args st'
               /\ st' = set_ctx_args (ctx_args st') st.
Proof.
  revert st n st'. induction reg as [| | | | | | |d commands IH] using Node_nested_ind;
    intros st n st'; try done.
  rewrite get_command_eq. destruct (ctx_args st) as [|name rest] eqn:Eargs; [done|].
  destruct (PyDict.get name commands) as [next|] eqn:E; [|done].
  destruct (is_CommandRegistry next) eqn:Ereg.
  - intros H. pose proof (PyDict_get_In _ _ _ E) as Hin.
    rewrite List.Forall_forall in IH.
    destruct (IH _ Hin _ _ _ H) as (path & Hres & Hargs & Hst).
    exists (name :: path). split; [|split].
    + cbn [resolves reg_commands]. split; [done|]. by rewrite E, Ereg.
    + cbn [ctx_args set_ctx_args] in Hargs. by rewrite Hargs.
    + by rewrite Hst.
  - intros [= <- <-]. exists [name]. split; [|done].
    cbn [resolves reg_commands]. split; [done|]. by rewrite E, Ereg.
Qed.

Lemma resolves_get_command path reg n st rest :
  resolves path reg n -> ctx_args st = path ++ rest ->
  get_command reg st = (Return n, set_ctx_args rest st).
Proof.
  revert reg st. induction path as [|name more IH]; intros reg st; [done|].
  cbn [resolves]. intros [Hreg H] Hargs.
  destruct reg as [| | | | | | |d commands]; try done.
  rewrite get_command_eq, Hargs. cbn [app reg_commands] in *.
  destruct (PyDict.get name commands) as [next|]; [|done].
  destruct (is_CommandRegistry next).
  - by rewrite (IH next (set_ctx_args (more ++ rest) st) H eq_refl).
  - destruct H as [-> ->]. done.
Qed.

(** X12. [get_command] returns a node exactly when a front part of the
    arguments is a path of names that leads, through registries, to a
    node that is no registry: that node is returned, never a registry,
    exactly the names of the path are taken off the arguments, and
    nothing else of the state changes. *)
Theorem get_command_follows_path (reg : Node) (st : State) (n : Node) (st' : State) :
  (get_command reg st = (Return n, st') <->
   exists path, resolves path reg n
                /\ ctx_args st = path ++ ctx_args st'
                /\ st' = set_ctx_args (ctx_args st') st)
  /\ (get_command reg st = (Return n, st') ->
      is_CommandRegistry n = false /\ length (ctx_args st') < length (ctx_args st)).
Proof.
  split; [split|].
  - apply get_command_resolves_path.
  - intros (path & Hres & Hargs & ->). by apply (resolves_get_command path).
  - intros H. destruct (get_command_resolves_path _ _ _ _ H) as (path & Hres & Hargs & _).
    split; [by eapply resolves_not_registry|].
    rewrite Hargs, List.length_app. destruct path; [done|]. cbn. lia.
Qed.

Lemma get_command_follows_path_witness :
  get_command Ex.A (set_ctx_args ["b"; "c"; "rest"] Ex.fresh)
  = (Return (SimpleCommand "echo hi"), set_ctx_args ["rest"] Ex.fresh).
Proof.
  refine (proj2 (proj1 (get_command_follows_path Ex.A
                          (set_ctx_args ["b"; "c"; "rest"] Ex.fresh)
                          (SimpleCommand "echo hi") (set_ctx_args ["rest"] Ex.fresh))) _).
  exists ["b"; "c"]. split; [|split]; [|reflexivity..].
  simpl. tauto.
Defined.

(** ** Which subprocesses are started *)

Lemma runs_within_same cmd st st' : started st' = started st -> runs_within cmd st st'.
Proof. intros H. exists []. by rewrite List.app_nil_r. Qed.

Lemma runs_within_trans cmd st1 st2 st3 :
  runs_within cmd st1 st2 -> runs_within cmd st2 st3 -> runs_within cmd st1 st3.
Proof.
  intros (l1 & H1 & F1) (l2 & H2 & F2). exists (l1 ++ l2). split.
  - by rewrite H2, H1, List.app_assoc.
  - apply List.Forall_app. done.
Qed.

Lemma runs_within_mono c cmd st st' :
  (forall s, has_literal s c = true -> has_literal s cmd = true) ->
  runs_within c st st' -> runs_within cmd st st'.
Proof.
  intros Hsub (l & H & F). exists l. split; [done|].
  eapply List.Forall_impl; [|exact F]. intros e. apply Hsub.
Qed.

Lemma has_literal_member s d commands c :
  In c commands -> has_literal s c = true -> has_literal s (ListCommands d commands) = true.
Proof.
  cbn [has_literal]. induction commands as [|c' r IH]; [done|].
  intros [->|Hin] Hc; apply orb_true_iff; [by left|right; by apply IH].
Qed.

Lemma has_literal_child s d commands k c :
  In (k, c) commands -> has_literal s c = true ->
  has_literal s (CommandRegistry d commands) = true.
Proof.
  cbn [has_literal]. induction commands as [|[k' c'] r IH]; [done|].
  intros [[= -> ->]|Hin] Hc; apply orb_true_iff; [by left|right; by apply IH].
Qed.

Lemma get_command_has_literal s reg st n st' :
  get_command reg st = (Return n, st') ->
  has_literal s n = true -> has_literal s reg = true.
Proof.
  intros Hget Hn. destruct (has_literal s reg) eqn:E; [done|].
  assert (negb (has_literal s n) = true); [|by rewrite Hn in *].
  eapply (get_command_ok (fun c => negb (has_literal s c))); [|by rewrite E|exact Hget].
  intros d commands k c Hreg Hin. apply negb_true_iff. apply negb_true_iff in Hreg.
  destruct (has_literal s c) eqn:Ec; [|done].
  by rewrite (has_literal_child s d commands k c Hin Ec) in Hreg.
Qed.

Lemma for_each_runs_within {A} cmd (body : A -> State -> Outcome unit * State) items st :
  (forall x st, In x items -> runs_within cmd st (snd (body x st))) ->
  runs_within cmd st (snd (for_each body items st)).
Proof.
  revert st. induction items as [|x r IH]; intros st Hbody.
  { by apply runs_within_same. }
  cbn [for_each]. pose proof (Hbody x st (or_introl eq_refl)) as Hx.
  destruct (body x st) as [[[]| |] st1]; cbn [snd] in *; try done.
  eapply runs_within_trans; [exact Hx|]. apply IH. intros y st2 Hy. apply Hbody. by right.
Qed.

Lemma execute_command_runs_within shell fuel cmd st :
  runs_within cmd st (snd (execute_command shell fuel cmd st)).
Proof.
  revert cmd st. induction fuel as [|fuel IH]; intros cmd st.
  { by apply runs_within_same. }
  destruct cmd as [|t|d|c|s|d commands|d inner c ee se t|d commands];
    try by apply runs_within_same.
  - cbn [execute_command]. unfold sh.cmd. exists [(s, process_cwd st)].
    split; [by destruct (_ && _)|]. constructor; [|done]. cbn. apply String.eqb_refl.
  - rewrite execute_command_list. cbn [snd].
    eapply runs_within_trans; [|by apply runs_within_same].
    apply for_each_runs_within. intros x st1 Hx.
    eapply runs_within_mono; [|apply IH]. intros s. by apply has_literal_member.
  - rewrite execute_command_obj.
    assert (H1 : started (apply_set_env se st) = started st).
    { unfold apply_set_env. by apply fold_left_frame. }
    pose proof (ensure_env_frame started (CommandObj d inner c ee se t) ee
                  (apply_set_env se st) (fun _ _ => eq_refl)) as H2.
    destruct (for_each _ ee _) as [[[]| |] st2]; cbn [snd] in H2;
      [|apply runs_within_same; cbn [snd]; congruence..].
    assert (H5 : started (enter_scope t c st2) = started st).
    { unfold enter_scope. destruct (ctx_cwd (set_ctx_cwd _ _)); cbn; congruence. }
    apply (runs_within_trans _ _ (enter_scope t c st2)); [by apply runs_within_same|].
    apply (runs_within_trans _ _ (snd (scope_body shell fuel inner (enter_scope t c st2)))).
    2:{ apply runs_within_same. apply leave_scope_process_cwd. }
    unfold scope_body. destruct (is_Command inner).
    { eapply runs_within_mono; [|apply IH]. done. }
    destruct (is_CommandRegistry inner); [|by apply runs_within_same].
    pose proof (get_command_frame started (fun _ _ => eq_refl) (fun _ _ => eq_refl)
                  inner (enter_scope t c st2)) as Hg.
    destruct (get_command inner _) as [[sub| |] st5'] eqn:Eg; cbn [snd] in Hg |- *;
      try by apply runs_within_same.
    apply (runs_within_trans _ _ st5'); [by apply runs_within_same|].
    eapply runs_within_mono; [|apply IH]. intros s. cbn [has_literal].
    by apply (get_command_has_literal s inner (enter_scope t c st2) sub st5' Eg).
Qed.

(** X13. Every subprocess that [execute_command] starts has as its
    command line the text of a [SimpleCommand] of the node it executes,
    and every subprocess that [execute] starts the text of one in the
    registry of the configuration: the arguments of the command line
    choose among the configured commands and are never run themselves. *)
Theorem runs_only_configured_commands
    (shell : string -> State -> Z) (fuel : nat) (cmd : Node)
    (config : RunConfig) (args : list string) (st : State) :
  (exists l,
      started (snd (execute_command shell fuel cmd st)) = started st ++ l
      /\ List.Forall (fun e => has_literal (fst e) cmd = true) l)
  /\ (exists l,
        started (snd (execute shell config args st)) = started st ++ l
        /\ List.Forall (fun e => has_literal (fst e) (reg config) = true) l).
Proof.
  split; [apply execute_command_runs_within|].
  change (runs_within (reg config) st (snd (execute shell config args st))).
  assert (H : runs_within (reg config) st (snd (execute_body shell config args st))).
  { unfold execute_body.
    pose proof (get_command_frame started (fun _ _ => eq_refl) (fun _ _ => eq_refl)
                  (reg config) (new_ExecCtx args st)) as Hg.
    destruct (get_command _ _) as [[cmd'| |] st'] eqn:Eg; cbn [snd] in Hg |- *;
      try by apply runs_within_same.
    apply (runs_within_trans _ _ st'); [by apply runs_within_same|].
    eapply runs_within_mono; [|apply execute_command_runs_within].
    intros s. by apply (get_command_has_literal s (reg config) (new_ExecCtx args st) cmd' st' Eg). }
  unfold execute. destruct (execute_body _ _ _ _) as [[[]|e|] st']; cbn [snd] in *; try done.
  by destruct (is_Exception e).
Qed.

(** ** The parser, continued *)

Lemma PyDict_set_Forall {V} (Q : V -> Prop) (k : string) (v : V) d :
  Q v -> List.Forall (fun kv => Q (snd kv)) d ->
  List.Forall (fun kv => Q (snd kv)) (PyDict.set k v d).
Proof.
  intros Hv. induction 1 as [|[k' v'] r Hkv Hr IH]; cbn [PyDict.set].
  - by constructor.
  - destruct (String.eqb k' k); constructor; done.
Qed.

Lemma PyDict_keys_pop {V} (k : string) (d : list (string * V)) :
  List.NoDup (PyDict.keys d) ->
  PyDict.keys (PyDict.pop k d) = List.filter (fun k' => negb (String.eqb k' k)) (PyDict.keys d)
  /\ List.NoDup (PyDict.keys (PyDict.pop k d)).
Proof.
  induction d as [|[k' v'] r IH]; [done|].
  change (PyDict.keys ((k', v') :: r)) with (k' :: PyDict.keys r).
  intros Hnd. inversion Hnd as [|? ? Hnotin Hnd']; subst.
  destruct (IH Hnd') as [IHk IHn]. cbn [PyDict.pop List.filter].
  destruct (String.eqb k' k) eqn:E; cbn [negb].
  - split; [|done]. apply String.eqb_eq in E. subst k'.
    symmetry. apply List.forallb_filter_id. apply List.forallb_forall.
    intros x Hx. apply negb_true_iff, String.eqb_neq. by intros ->.
  - change (PyDict.keys ((k', v') :: PyDict.pop k r)) with (k' :: PyDict.keys (PyDict.pop k r)).
    split; [by rewrite IHk|]. constructor; [|done].
    rewrite IHk. intros [Hin _]%List.filter_In. done.
Qed.

Lemma filter_twice {A} (f g : A -> bool) (l : list A) :
  List.filter f (List.filter g l) = List.filter (fun x => g x && f x) l.
Proof.
  induction l as [|x l IH]; [done|]. cbn [List.filter].
  destruct (g x); cbn [andb List.filter]; [|done]. by rewrite IH.
Qed.

Lemma object_rest_keys (d : list (string * yaml)) :
  List.NoDup (PyDict.keys d) ->
  PyDict.keys (object_rest d) = List.filter (fun k => negb (is_object_key k)) (PyDict.keys d).
Proof.
  intros H0. unfold object_rest.
  destruct (PyDict_keys_pop "desc" d H0) as [E1 H1].
  destruct (PyDict_keys_pop "ensure_env" _ H1) as [E2 H2].
  destruct (PyDict_keys_pop "set_env" _ H2) as [E3 H3].
  destruct (PyDict_keys_pop "throw" _ H3) as [E4 H4].
  destruct (PyDict_keys_pop "cwd" _ H4) as [E5 H5].
  destruct (PyDict_keys_pop "cmd" _ H5) as [E6 _].
  rewrite E6, E5, E4, E3, E2, E1, !filter_twice.
  apply List.filter_ext. intros k. unfold is_object_key. cbn [existsb].
  rewrite !negb_orb. cbn [negb]. rewrite !andb_true_r, !andb_assoc. reflexivity.
Qed.

(** X14. In a mapping with a [cmd] key, any key besides [desc],
    [ensure_env], [set_env], [throw], [cwd] and [cmd] ends the parse
    with the message "Unexpected keys in command definition" and
    [exit(1)], unless the conversion of [ensure_env] or [set_env] or the
    parse of the value of [cmd] has ended it before; the message lists
    exactly the keys that are not among the six, in the order of the
    mapping. *)
Theorem unexpected_keys_are_reported
    (file_path : Path) (path_resolve : string -> Path)
    (d : list (string * yaml)) (key : string)
    (Hkeys : List.NoDup (PyDict.keys d))
    (Hcmd : PyDict.has "cmd" d = true)
    (Hin : In key (PyDict.keys d))
    (Hkey : is_object_key key = false) :
  _parse_command file_path path_resolve (YMap d)
  = pbind (py_set (PyDict.getd "ensure_env" d (YList [])))
      (fun _ => pbind (py_dict (PyDict.getd "set_env" d (YMap [])))
         (fun _ => pbind (_parse_command file_path path_resolve (PyDict.getd "cmd" d YNull))
            (fun _ => PExit (UnexpectedKeys
                               (List.filter (fun k => negb (is_object_key k))
                                            (PyDict.keys d)))))).
Proof.
  rewrite parse_command_map.
  assert (Hlen : (length d =? 1)%nat = false).
  { apply Nat.eqb_neq. intros Hlen.
    apply PyDict_has_In in Hcmd. unfold PyDict.keys in *.
    destruct d as [|[k v] [|? ?]]; try done. cbn in Hcmd, Hin.
    destruct Hcmd as [Hk|[]], Hin as [Hk'|[]]. subst k key. done. }
  rewrite Hlen, !andb_false_r, Hcmd. unfold object_case.
  rewrite get_each_pair. unfold PyDict.has in Hcmd.
  destruct (PyDict.get "cmd" d) as [v|] eqn:Ev; [|done]. cbn [option_map].
  assert (PyDict.getd "cmd" d YNull = v) as -> by (unfold PyDict.getd; by rewrite Ev).
  destruct (py_set _) as [ee| | |]; cbn [pbind]; try done.
  destruct (py_dict _) as [se| | |]; cbn [pbind]; try done.
  destruct (_parse_command file_path path_resolve v) as [c| | |]; cbn [pbind]; try done.
  rewrite <- (object_rest_keys d Hkeys).
  assert (Hrest : In key (PyDict.keys (object_rest d))).
  { rewrite object_rest_keys by done. apply List.filter_In. by rewrite Hkey. }
  destruct (object_rest d) as [|kv rest]; [done|]. done.
Qed.

Lemma unexpected_keys_are_reported_witness :
  _parse_command Ex.config_path Pathlib.of_string (YMap Ex2.object_doc)
  = pbind (py_set (PyDict.getd "ensure_env" Ex2.object_doc (YList [])))
      (fun _ => pbind (py_dict (PyDict.getd "set_env" Ex2.object_doc (YMap [])))
         (fun _ => pbind (_parse_command Ex.config_path Pathlib.of_string
                            (PyDict.getd "cmd" Ex2.object_doc YNull))
            (fun _ => PExit (UnexpectedKeys
                               (List.filter (fun k => negb (is_object_key k))
                                            (PyDict.keys Ex2.object_doc)))))).
Proof.
  refine (unexpected_keys_are_reported Ex.config_path Pathlib.of_string Ex2.object_doc
            "colour" _ _ _ _).
  - repeat constructor; simpl; intuition discriminate.
  - reflexivity.
  - simpl. tauto.
  - reflexivity.
Defined.

Section ParseLoopFacts.

Variable file_path : Path.
Variable path_resolve : string -> Path.

Local Abbreviation parse_command := (_parse_command file_path path_resolve).

(** The names with their parses. *)
Local Abbreviation parsed_as :=
  (List.Forall2 (fun (kv : string * yaml) (kn : string * Node) =>
                   fst kv = fst kn /\ parse_command (snd kv) = POk (snd kn))).

Lemma parse_loop_update items acc commands :
  parse_loop file_path path_resolve items acc = POk commands ->
  exists parsed, parsed_as items parsed /\ commands = PyDict.update acc parsed.
Proof.
  revert acc. induction items as [|[k v] r IH]; intros acc.
  - cbn. intros [= <-]. exists []. split; [constructor|done].
  - cbn [parse_loop]. destruct (parse_command v) as [n| | |] eqn:E; cbn [pbind]; try done.
    intros H. destruct (IH _ H) as (parsed & Hp & ->).
    exists ((k, n) :: parsed). split; [|done]. by constructor.
Qed.

Lemma parsed_as_get items parsed name :
  parsed_as items parsed ->
  PyDict.get name parsed
  = match PyDict.get name items with
    | Some v => match parse_command v with POk n => Some n | _ => None end
    | None => None
    end
  /\ PyDict.keys parsed = PyDict.keys items.
Proof.
  induction 1 as [|[k v] [k' n] r r' [Hk Hv] Hr [IH1 IH2]]; [done|].
  cbn [fst snd] in *. subst k'. cbn [PyDict.get]. split.
  - destruct (String.eqb k name); [by rewrite Hv|exact IH1].
  - unfold PyDict.keys in *. cbn [map fst]. by rewrite IH2.
Qed.

End ParseLoopFacts.

(** X15. When [parse] succeeds on a document in which no mapping with a
    [cmd] key stands at two places, the root registry has exactly the
    names of the [commands] mapping, in its order, each bound to the
    parse of its value; at this level [desc] is a name like any other.
    (The parser empties a mapping with a [cmd] key as it reads it, so an
    alias of such a mapping is parsed from what the first reading left,
    an empty mapping: hence the condition.) A document that is no
    mapping, and a mapping without [commands], end the parse with their
    message and [exit(1)]. *)
Theorem parse_binds_every_name
    (file_path : Path) (path_resolve : string -> Path)
    (d cmds : list (string * yaml)) (config : RunConfig) (name : string)
    (Hcommands : PyDict.get "commands" d = Some (YMap cmds))
    (Hkeys : List.NoDup (PyDict.keys cmds))
    (Hunshared : List.NoDup (cmd_mappings (YMap cmds)))
    (Hparse : parse file_path path_resolve (YMap d) = POk config) :
  PyDict.get name (reg_commands (reg config))
  = match PyDict.get name cmds with
    | Some v =>
        match _parse_command file_path path_resolve v with
        | POk n => Some n
        | _ => None
        end
    | None => None
    end
  /\ PyDict.keys (reg_commands (reg config)) = PyDict.keys cmds
  /\ (forall v, (forall m, v <> YMap m) ->
        parse file_path path_resolve v = PExit InvalidConfiguration)
  /\ (forall m, PyDict.has "commands" m = false ->
        parse file_path path_resolve (YMap m) = PExit MissingCommandsKey).
Proof.
  clear Hunshared.
  split; [|split; [|split]].
  3:{ intros v Hv. destruct v; try done. by destruct (Hv items). }
  3:{ intros m Hm. cbn [parse]. by rewrite Hm. }
  all: unfold parse, PyDict.has, PyDict.getd in Hparse; rewrite Hcommands in Hparse;
    cbn [negb] in Hparse;
    destruct (parse_loop file_path path_resolve cmds []) as [commands| | |] eqn:E;
    cbn [pbind] in Hparse; try done;
    injection Hparse as <-; cbn [reg reg_commands];
    destruct (parse_loop_update _ _ _ _ _ E) as (parsed & Hp & ->);
    destruct (parsed_as_get file_path path_resolve _ _ name Hp) as [Hget Hk].
  - rewrite PyDict_get_update by (by rewrite Hk). rewrite Hget.
    by destruct (PyDict.get name cmds) as [v|]; [destruct (_parse_command _ _ v)|].
  - rewrite PyDict_keys_update by (by rewrite Hk). cbn [PyDict.keys map app].
    rewrite <- Hk. apply List.forallb_filter_id. by apply List.forallb_forall.
Qed.

Lemma parse_binds_every_name_witness :
  PyDict.get "build"
    (reg_commands (reg (mkRunConfig (CommandRegistry "" Ex2.two_objects_parsed))))
  = match PyDict.get "build" Ex2.two_objects with
    | Some v =>
        match _parse_command Ex.config_path Pathlib.of_string v with
        | POk n => Some n
        | _ => None
        end
    | None => None
    end.
Proof.
  refine (proj1 (parse_binds_every_name Ex.config_path Pathlib.of_string
                   [("commands", YMap Ex2.two_objects)] Ex2.two_objects
                   (mkRunConfig (CommandRegistry "" Ex2.two_objects_parsed))
                   "build" _ _ _ _)).
  - reflexivity.
  - repeat constructor; simpl; intuition discriminate.
  - repeat constructor; simpl; intuition discriminate.
  - reflexivity.
Defined.

(** ** What every parsed tree looks like *)

Section ParsedShape.

Variable file_path : Path.
Variable path_resolve : string -> Path.

Local Abbreviation parse_command := (_parse_command file_path path_resolve).

(** A property of nodes that holds of the leaves the parser builds and
    is kept by its three ways of building a node from parsed parts. *)
Variable Q : Node -> Prop.
Hypothesis Q_none : Q PyNone.
Hypothesis Q_throw : forall t, Q (ThrowConfig t).
Hypothesis Q_desc : forall d, Q (DescConfig d).
Hypothesis Q_simple : forall s, Q (SimpleCommand s).
Hypothesis Q_list : forall d commands,
  List.Forall (fun c => is_Command c = true /\ Q c) commands -> Q (ListCommands d commands).
Hypothesis Q_obj : forall d inner c ee se t, Q inner -> Q (CommandObj d inner c ee se t).
Hypothesis Q_reg : forall d commands,
  List.NoDup (PyDict.keys commands) ->
  ~ In "desc" (PyDict.keys commands) ->
  ~ In "cmd" (PyDict.keys commands) ->
  List.Forall (fun kc => Q (snd kc)) commands ->
  Q (CommandRegistry d commands).

Lemma list_loop_shape items acc commands :
  list_loop (parse_each file_path path_resolve items) acc = POk commands ->
  List.Forall (fun c => is_Command c = true /\ Q c) acc ->
  List.Forall (fun v => forall n, parse_command v = POk n -> Q n) items ->
  List.Forall (fun c => is_Command c = true /\ Q c) commands.
Proof.
  revert acc. induction items as [|v r IH]; intros acc.
  - cbn. by intros [= <-].
  - cbn [parse_each map list_loop]. fold (parse_each file_path path_resolve r).
    destruct (parse_command v) as [n| | |] eqn:E; cbn [pbind]; try done.
    destruct (is_Command n) eqn:En; [|done].
    intros H Hacc Hitems. inversion Hitems as [|? ? Hv Hr]; subst.
    apply (IH _ H); [|done]. apply List.Forall_app. split; [done|].
    constructor; [|done]. split; [done|]. by apply Hv.
Qed.

Lemma hoist_desc_Forall (P : Node -> Prop) commands d commands' :
  hoist_desc commands = Some (d, commands') ->
  List.Forall P commands -> List.Forall P commands'.
Proof.
  revert commands'. induction commands as [|c r IH]; intros commands'; [done|].
  intros H Hall. inversion Hall as [|? ? Hc Hr]; subst. cbn [hoist_desc] in H.
  destruct c; try (destruct (hoist_desc r) as [[d' r']|]; [|done];
                   injection H as <- <-; constructor; [done|by apply IH]).
  by injection H as <- <-.
Qed.

Lemma registry_loop_shape items desc acc n :
  registry_loop items desc acc = POk n ->
  List.NoDup (PyDict.keys acc) ->
  ~ In "desc" (PyDict.keys acc) ->
  ~ In "cmd" (PyDict.keys acc) ->
  List.Forall (fun kc => Q (snd kc)) acc ->
  List.Forall (fun kvr => fst kvr <> "cmd"
                          /\ forall m, snd (snd kvr) = POk m -> Q m) items ->
  Q n.
Proof.
  revert desc acc. induction items as [|[k [v r]] items IH]; intros desc acc.
  - cbn. intros [= <-] Hnd Hdesc Hcmd Hall _. by apply Q_reg.
  - cbn [registry_loop]. destruct r as [c| | |]; cbn [pbind]; try done.
    intros H Hnd Hdesc Hcmd Hall Hitems.
    inversion Hitems as [|? ? [Hk Hq] Hrest]; subst. cbn [fst snd] in *.
    destruct (String.eqb k "desc") eqn:E.
    + destruct c; try done. by apply (IH _ _ H).
    + apply String.eqb_neq in E. apply (IH _ _ H); try done.
      * by apply PyDict_set_NoDup.
      * rewrite PyDict_keys_set. destruct (PyDict.has k acc); [done|].
        intros [Hin|[->|[]]]%List.in_app_or; done.
      * rewrite PyDict_keys_set. destruct (PyDict.has k acc); [done|].
        intros [Hin|[->|[]]]%List.in_app_or; done.
      * apply PyDict_set_Forall; [by apply Hq|done].
Qed.

Lemma parse_command_shape v n : parse_command v = POk n -> Q n.
Proof.
  revert n. induction v as [|b|z|s|items IH|d IH] using yaml_nested_ind; intros n.
  - by intros [= <-].
  - by intros [= <-].
  - by intros [= <-].
  - by intros [= <-].
  - rewrite parse_command_list. unfold list_case.
    destruct (list_loop _ []) as [commands| | |] eqn:E; cbn [pbind]; try done.
    intros [= <-]. pose proof (list_loop_shape _ _ _ E (List.Forall_nil _) IH) as Hall.
    unfold new_ListCommands. destruct (hoist_desc commands) as [[d commands']|] eqn:Eh.
    + apply Q_list. by eapply hoist_desc_Forall.
    + by apply Q_list.
  - rewrite parse_command_map.
    destruct (PyDict.has "throw" d && (length d =? 1)%nat); [by intros [= <-]|].
    destruct (PyDict.has "desc" d && (length d =? 1)%nat); [by intros [= <-]|].
    destruct (PyDict.has "cmd" d) eqn:Ecmd.
    + unfold object_case. rewrite get_each_pair.
      destruct (py_set _) as [ee| | |]; cbn [pbind]; try done.
      destruct (py_dict _) as [se| | |]; cbn [pbind]; try done.
      destruct (PyDict.get "cmd" d) as [v|] eqn:Ev; cbn [option_map]; [|done].
      destruct (parse_command v) as [c| | |] eqn:Ec; cbn [pbind]; try done.
      destruct (0 <? length (object_rest d))%nat; [done|].
      destruct (cwd_field _ _ _) as [cwd'| | |]; cbn [pbind]; try done.
      intros [= <-]. apply Q_obj.
      apply PyDict_get_In in Ev. rewrite List.Forall_forall in IH.
      by apply (IH _ Ev).
    + intros H. apply (registry_loop_shape _ _ _ _ H); try done.
      * constructor.
      * by intros [].
      * by intros [].
      * apply PyDict_has_not_In in Ecmd. clear H.
        induction IH as [|[k v] r Hv Hr IHr]; [constructor|].
        change (PyDict.keys ((k, v) :: r)) with (k :: PyDict.keys r) in Ecmd.
        cbn [parse_items map fst snd]. constructor.
        -- cbn [fst snd]. split; [|exact Hv]. intros ->. apply Ecmd. by left.
        -- apply IHr. intros Hin. apply Ecmd. by right.
Qed.

End ParsedShape.

Lemma sequences_hold_commands_list d commands :
  List.Forall (fun c => is_Command c = true /\ sequences_hold_commands c = true) commands ->
  sequences_hold_commands (ListCommands d commands) = true.
Proof.
  cbn [sequences_hold_commands]. induction 1 as [|c r [Hc Hs] Hr IH]; [done|].
  by rewrite Hc, Hs, IH.
Qed.

Lemma sequences_hold_commands_registry d commands :
  List.Forall (fun kc => sequences_hold_commands (snd kc) = true) commands ->
  sequences_hold_commands (CommandRegistry d commands) = true.
Proof.
  cbn [sequences_hold_commands]. induction 1 as [|[k c] r Hc Hr IH]; [done|].
  cbn [snd] in Hc. by rewrite Hc, IH.
Qed.

(** X16. In every tree that [_parse_command] builds, every member of
    every sequence is an instance of [Command] (never [None], never a
    registry), at any depth, and no [CwdConfig] occurs: the case of
    [execute_command] for it is never reached from a parsed
    configuration. *)
Theorem parsed_sequences_hold_commands
    (file_path : Path) (path_resolve : string -> Path) (v : yaml) (n : Node)
    (Hparse : _parse_command file_path path_resolve v = POk n) :
  sequences_hold_commands n = true.
Proof.
  apply (parse_command_shape file_path path_resolve
           (fun n => sequences_hold_commands n = true)) with (v := v); try done.
  - apply sequences_hold_commands_list.
  - intros d commands _ _ _. apply sequences_hold_commands_registry.
Qed.

Lemma parsed_sequences_hold_commands_witness :
  sequences_hold_commands
    (ListCommands (YStr "") [SimpleCommand "a"; ThrowConfig (YBool true)]) = true.
Proof.
  exact (parsed_sequences_hold_commands Ex.config_path Pathlib.of_string
           (YList [YStr "a"; YMap [("throw", YBool true)]])
           (ListCommands (YStr "") [SimpleCommand "a"; ThrowConfig (YBool true)]) eq_refl).
Defined.

Lemma registries_named_well_list d commands :
  List.Forall (fun c => is_Command c = true /\ registries_named_well c) commands ->
  registries_named_well (ListCommands d commands).
Proof.
  cbn [registries_named_well]. induction 1 as [|c r [Hc Hs] Hr IH]; done.
Qed.

Lemma registries_named_well_registry d commands :
  List.NoDup (PyDict.keys commands) ->
  ~ In "desc" (PyDict.keys commands) ->
  ~ In "cmd" (PyDict.keys commands) ->
  List.Forall (fun kc => registries_named_well (snd kc)) commands ->
  registries_named_well (CommandRegistry d commands).
Proof.
  intros Hnd Hdesc Hcmd Hall. cbn [registries_named_well].
  split; [done|]. split; [done|]. split; [done|].
  clear Hnd Hdesc Hcmd. induction Hall as [|[k c] r Hc Hr IH]; done.
Qed.

(** X17. In every tree that [_parse_command] builds, the children of
    every registry have pairwise different names, and no child is named
    [desc] or [cmd]: [desc] is taken as the description of the registry,
    and a mapping with [cmd] is a command object. *)
Theorem parsed_registries_named_well
    (file_path : Path) (path_resolve : string -> Path) (v : yaml) (n : Node)
    (Hparse : _parse_command file_path path_resolve v = POk n) :
  registries_named_well n.
Proof.
  apply (parse_command_shape file_path path_resolve registries_named_well) with (v := v);
    try done.
  - apply registries_named_well_list.
  - apply registries_named_well_registry.
Qed.

Lemma parsed_registries_named_well_witness :
  registries_named_well (CommandRegistry "x" [("throw", PyNone)]).
Proof.
  exact (parsed_registries_named_well Ex.config_path Pathlib.of_string
           (YMap [("throw", YBool true); ("desc", YStr "x")])
           (CommandRegistry "x" [("throw", PyNone)]) eq_refl).
Defined.

(** ** Configurations without a [throw] that is true *)

Lemma never_throws_member d commands c :
  never_throws (ListCommands d commands) = true -> In c commands -> never_throws c = true.
Proof.
  cbn [never_throws]. induction commands as [|c' r IH]; [done|].
  intros [Hc Hr]%andb_prop [->|Hin]; [done|]. by apply IH.
Qed.

Lemma never_throws_child d commands k c :
  never_throws (CommandRegistry d commands) = true -> In (k, c) commands ->
  never_throws c = true.
Proof.
  cbn [never_throws]. induction commands as [|[k' c'] r IH]; [done|].
  intros [Hc Hr]%andb_prop [[= -> ->]|Hin]; [done|]. by apply IH.
Qed.

Lemma get_command_no_failure reg st status :
  fst (get_command reg st) <> Raise (CommandFailure status).
Proof.
  revert st. induction reg as [| | | | | | |d commands IH] using Node_nested_ind;
    intros st; try done.
  rewrite get_command_eq. destruct (ctx_args st) as [|name rest]; [done|].
  destruct (PyDict.get name commands) as [next|] eqn:E; [|done].
  destruct (is_CommandRegistry next); [|done].
  apply PyDict_get_In in E. rewrite List.Forall_forall in IH. apply (IH _ E).
Qed.

Lemma ensure_env_no_failure cmd ee st status :
  fst (for_each (ensure_env_body cmd) ee st) <> Raise (CommandFailure status).
Proof.
  revert st. induction ee as [|name r IH]; intros st; [done|].
  cbn [for_each]. unfold ensure_env_body at 1. destruct (negb _); [done|]. apply IH.
Qed.

Lemma for_each_calm {A} (body : A -> State -> Outcome unit * State) items st :
  (forall x st, In x items -> py_bool (ctx_throw st) = false -> calm (body x st)) ->
  py_bool (ctx_throw st) = false ->
  calm (for_each body items st).
Proof.
  revert st. induction items as [|x r IH]; intros st Hbody Hst; [done|].
  cbn [for_each]. pose proof (Hbody x st (or_introl eq_refl) Hst) as Hx.
  destruct (body x st) as [[[]| |] st1]; try done.
  destruct Hx as [_ Hx]. apply IH; [|done]. intros y st2 Hy. apply Hbody. by right.
Qed.

Lemma execute_command_calm shell fuel cmd st :
  never_throws cmd = true -> py_bool (ctx_throw st) = false ->
  calm (execute_command shell fuel cmd st).
Proof.
  revert cmd st. induction fuel as [|fuel IH]; intros cmd st Hcmd Hst; [done|].
  destruct cmd as [|t|d|c|s|d commands|d inner c ee se t|d commands]; try done.
  - split; [done|]. cbn. by apply negb_true_iff.
  - cbn [execute_command]. unfold sh.cmd. by rewrite Hst, andb_false_r.
  - rewrite execute_command_list.
    destruct (for_each_calm (execute_command shell fuel) commands st) as [Ho _]; [|done|done].
    intros x st1 Hx. apply IH. by eapply never_throws_member.
  - cbn [never_throws] in Hcmd. apply andb_prop in Hcmd as [Ht%negb_true_iff Hinner].
    rewrite execute_command_obj.
    destruct (apply_set_env_ctx se st) as (Ht1 & _).
    pose proof (ensure_env_frame ctx_throw (CommandObj d inner c ee se t) ee
                  (apply_set_env se st) (fun _ _ => eq_refl)) as Ht2.
    pose proof (fun status =>
                  ensure_env_no_failure (CommandObj d inner c ee se t) ee
                    (apply_set_env se st) status) as Ha.
    destruct (for_each _ ee _) as [[[]|e|] st2]; cbn [fst snd] in Ht2, Ha.
    2:{ split; cbn [fst snd]; [exact Ha|congruence]. }
    2:{ split; cbn [fst snd]; [done|congruence]. }
    assert (Hst2 : py_bool (ctx_throw st2) = false) by congruence.
    assert (H5 : py_bool (ctx_throw (enter_scope t c st2)) = false).
    { unfold enter_scope. destruct (ctx_cwd (set_ctx_cwd _ _)); cbn; by destruct t. }
    assert (Hbody : forall status,
               fst (scope_body shell fuel inner (enter_scope t c st2))
               <> Raise (CommandFailure status)).
    { intros status. unfold scope_body. destruct (is_Command inner).
      { by apply IH. }
      destruct (is_CommandRegistry inner); [|done].
      pose proof (get_command_no_failure inner (enter_scope t c st2) status) as Hg.
      pose proof (get_command_frame ctx_throw (fun _ _ => eq_refl) (fun _ _ => eq_refl)
                    inner (enter_scope t c st2)) as Hf.
      destruct (get_command inner _) as [[sub|e|] st5'] eqn:Eg; cbn [fst snd] in Hg, Hf |- *;
        [|intros [= ->]; by apply Hg|done].
      apply IH; [|congruence].
      exact (get_command_ok never_throws never_throws_child inner
               (enter_scope t c st2) sub st5' Hinner Eg). }
    unfold leave_scope, calm.
    destruct (scope_body _ _ _ _) as [[[]|e|] st6]; cbn [fst snd] in *.
    + split; [done|]. by destruct (remove_set_env_ctx se
                                      (restore_ctx (ctx_throw st2) (ctx_cwd st2) st6))
        as (-> & _).
    + split; [|done]. intros status [= ->]. by apply (Hbody status).
    + done.
Qed.

(** X18. Nothing fails unless the configuration asks for it: when no
    [ThrowConfig] and no [CommandObj] of the registry gives a [throw]
    that is true, [execute] never ends in a command failure, whatever
    the exit statuses of the subprocesses, and [execute_command] started
    under a [ctx.throw] that is false neither does nor leaves
    [ctx.throw] true. *)
Theorem nothing_fails_without_throw
    (shell : string -> State -> Z) (fuel : nat) (cmd : Node)
    (config : RunConfig) (args : list string) (st : State) (status : Z)
    (Hcmd : never_throws cmd = true)
    (Hst : py_bool (ctx_throw st) = false)
    (Hconfig : never_throws (reg config) = true) :
  fst (execute_command shell fuel cmd st) <> Raise (CommandFailure status)
  /\ py_bool (ctx_throw (snd (execute_command shell fuel cmd st))) = false
  /\ fst (execute_body shell config args st) <> Raise (CommandFailure status).
Proof.
  destruct (execute_command_calm shell fuel cmd st Hcmd Hst) as [H1 H2].
  split; [apply H1|]. split; [exact H2|].
  unfold execute_body.
  pose proof (get_command_no_failure (reg config) (new_ExecCtx args st) status) as Hg.
  pose proof (get_command_frame ctx_throw (fun _ _ => eq_refl) (fun _ _ => eq_refl)
                (reg config) (new_ExecCtx args st)) as Hf.
  destruct (get_command _ _) as [[sub|e|] st'] eqn:Eg; cbn [fst snd] in Hg, Hf |- *;
    [|intros [= ->]; by apply Hg|done].
  apply execute_command_calm; [|by rewrite Hf].
  exact (get_command_ok never_throws never_throws_child (reg config)
           (new_ExecCtx args st) sub st' Hconfig Eg).
Qed.

Lemma nothing_fails_without_throw_witness :
  fst (execute_command Ex.shell 2 (ListCommands (YStr "") Ex.false_then_echo) Ex.fresh)
  <> Raise (CommandFailure 1).
Proof.
  refine (proj1 (nothing_fails_without_throw Ex.shell 2
                   (ListCommands (YStr "") Ex.false_then_echo) Ex.system [] Ex.fresh 1
                   _ _ _)).
  - reflexivity.
  - reflexivity.
  - reflexivity.
Defined.

(** ** Arguments after the resolved command *)

Lemma args_free_member d commands c :
  args_free (ListCommands d commands) = true -> In c commands -> args_free c = true.
Proof.
  cbn [args_free]. induction commands as [|c' r IH]; [done|].
  intros [Hc Hr]%andb_prop [->|Hin]; [done|]. by apply IH.
Qed.

Section TrailingArgs.

Variable shell : string -> State -> Z.

(** The exit status of a subprocess does not depend on the arguments
    that [ctx.args] still holds. *)
Hypothesis shell_ignores_args : forall command a st,
  shell command (set_ctx_args a st) = shell command st.

Local Abbreviation moved a r := (fst r, set_ctx_args a (snd r)).

Lemma for_each_moved {A} (body : A -> State -> Outcome unit * State) items a st :
  (forall x st, In x items -> body x (set_ctx_args a st) = moved a (body x st)) ->
  for_each body items (set_ctx_args a st) = moved a (for_each body items st).
Proof.
  revert st. induction items as [|x r IH]; intros st Hbody; [done|].
  cbn [for_each]. rewrite (Hbody x st (or_introl eq_refl)).
  destruct (body x st) as [[[]| |] st1]; cbn [fst snd]; try done.
  apply IH. intros y st2 Hy. apply Hbody. by right.
Qed.

Lemma fold_left_moved {A} (step : State -> A -> State) items a st :
  (forall x st, step (set_ctx_args a st) x = set_ctx_args a (step st x)) ->
  fold_left step items (set_ctx_args a st) = set_ctx_args a (fold_left step items st).
Proof.
  intros Hstep. revert st. induction items as [|x r IH]; intros st; [done|].
  cbn [fold_left]. by rewrite Hstep, IH.
Qed.

Lemma execute_command_moved fuel cmd a st :
  args_free cmd = true ->
  execute_command shell fuel cmd (set_ctx_args a st)
  = moved a (execute_command shell fuel cmd st).
Proof.
  revert cmd st. induction fuel as [|fuel IH]; intros cmd st Hcmd; [done|].
  destruct cmd as [|t|d|c|s|d commands|d inner c ee se t|d commands]; try done.
  - cbn [execute_command]. unfold sh.cmd. rewrite shell_ignores_args.
    cbn [ctx_throw set_ctx_args]. by destruct (_ && _).
  - rewrite !execute_command_list. cbv zeta. rewrite for_each_moved.
    + done.
    + intros x st1 Hx. apply IH. by eapply args_free_member.
  - cbn [args_free] in Hcmd. apply andb_prop in Hcmd as [Hreg%negb_true_iff Hinner].
    rewrite !execute_command_obj. unfold apply_set_env.
    rewrite fold_left_moved by done. fold (apply_set_env se st).
    rewrite for_each_moved.
    2:{ intros name st1 _. unfold ensure_env_body, sh.has_env. cbn [environ set_ctx_args].
        by destruct (environ st1 !! name). }
    destruct (for_each _ ee (apply_set_env se st)) as [[[]| |] st2]; cbn [fst snd]; try done.
    assert (H5 : enter_scope t c (set_ctx_args a st2) = set_ctx_args a (enter_scope t c st2)).
    { unfold enter_scope. cbn [ctx_cwd set_ctx_cwd set_ctx_throw set_ctx_args ctx_throw].
      by destruct (match c with Some c0 => Some c0 | None => ctx_cwd st2 end). }
    rewrite H5. unfold scope_body. rewrite Hreg.
    destruct (is_Command inner).
    + rewrite (IH inner _ Hinner). unfold leave_scope. cbn [fst snd ctx_throw ctx_cwd set_ctx_args].
      destruct (fst (execute_command shell fuel inner (enter_scope t c st2))) as [[]| |];
        try done.
      unfold remove_set_env.
      change (restore_ctx (ctx_throw st2) (ctx_cwd st2)
                (set_ctx_args a (execute_command shell fuel inner (enter_scope t c st2)).2))
        with (set_ctx_args a (restore_ctx (ctx_throw st2) (ctx_cwd st2)
                (execute_command shell fuel inner (enter_scope t c st2)).2)).
      by rewrite fold_left_moved.
    + unfold leave_scope. cbn [fst snd ctx_throw ctx_cwd set_ctx_args].
      unfold remove_set_env.
      change (restore_ctx (ctx_throw st2) (ctx_cwd st2) (set_ctx_args a (enter_scope t c st2)))
        with (set_ctx_args a (restore_ctx (ctx_throw st2) (ctx_cwd st2) (enter_scope t c st2))).
      by rewrite fold_left_moved.
Qed.

End TrailingArgs.

(** X19. Arguments after the resolved command are ignored: when a front
    part of the arguments resolves to a node in which no [CommandObj]
    wraps a registry, a run with further arguments after it ends the
    same way and leaves the same state as the run without them, but
    for the unused arguments left in [ctx.args]. (The exit status of a
    subprocess is taken not to depend on [ctx.args].) *)
Theorem trailing_args_are_ignored
    (shell : string -> State -> Z) (config : RunConfig)
    (path rest : list string) (n : Node) (st : State)
    (Hshell : forall command a st, shell command (set_ctx_args a st) = shell command st)
    (Hpath : resolves path (reg config) n)
    (Hn : args_free n = true) :
  execute shell config (path ++ rest) st
  = (fst (execute shell config path st),
     set_ctx_args rest (snd (execute shell config path st))).
Proof.
  unfold execute, execute_body.
  rewrite (resolves_get_command path (reg config) n (new_ExecCtx (path ++ rest) st) rest Hpath
             eq_refl).
  rewrite (resolves_get_command path (reg config) n (new_ExecCtx path st) [] Hpath)
    by (cbn; by rewrite List.app_nil_r).
  change (set_ctx_args rest (new_ExecCtx (path ++ rest) st))
    with (set_ctx_args rest (set_ctx_args [] (new_ExecCtx path st))).
  rewrite (execute_command_moved shell Hshell _ n rest _ Hn).
  destruct (execute_command shell (height (reg config)) n _) as [[[]|e|] st']; cbn [fst snd];
    try done.
  by destruct (is_Exception e).
Qed.

Lemma trailing_args_are_ignored_witness :
  execute Ex.shell Ex.failing_config (["a"] ++ ["--verbose"]) Ex.fresh
  = (fst (execute Ex.shell Ex.failing_config ["a"] Ex.fresh),
     set_ctx_args ["--verbose"] (snd (execute Ex.shell Ex.failing_config ["a"] Ex.fresh))).
Proof.
  refine (trailing_args_are_ignored Ex.shell Ex.failing_config ["a"] ["--verbose"]
            (ListCommands (YStr "") [ThrowConfig (YBool true); SimpleCommand "false"])
            Ex.fresh _ _ _).
  - reflexivity.
  - simpl. tauto.
  - reflexivity.
Defined.

(** * The claim about sequences and [throw] *)

(** C7, the statement of the specification fails, in both halves. A
    sequence entered with [ctx.throw] true whose first item is
    [{throw: false}] runs on after a literal that ends with status 1; a
    sequence entered with [ctx.throw] false whose first item is a
    [CommandObj] with [throw: true] around a failing literal ends there
    with the command failure, and the item after it never runs. *)
Lemma sequence_follows_entry_throw_fails :
  ~ Spec.sequence_follows_entry_throw Ex.shell 2 (YStr "") Ex2.throw_off_then_false
      (set_ctx_throw (YBool true) Ex.fresh)
  /\ ~ Spec.sequence_follows_entry_throw Ex.shell 2 (YStr "") Ex2.scoped_throw_then_echo
        Ex.fresh.
Proof.
  split.
  - intros [H _].
    specialize (H eq_refl [ThrowConfig (YBool false)] "false" [SimpleCommand "echo ran"]
                  (set_ctx_throw (YBool false) Ex.fresh) eq_refl eq_refl).
    assert (Hs : Ex.shell "false" (set_ctx_throw (YBool false) Ex.fresh) <> 0%Z)
      by (vm_compute; discriminate).
    specialize (H Hs). vm_compute in H. discriminate.
  - intros [_ H]. specialize (H eq_refl). vm_compute in H. discriminate.
Qed.

(** C7, as the code has it. What counts is [ctx.throw] when a literal
    is reached, not when the sequence is entered. In a sequence, let the
    items before a literal return and leave [ctx.throw] true; if the
    subprocess of the literal then ends with a status other than 0, the
    sequence ends there with the command failure and the literal is the
    last subprocess started: no later item runs. A literal reached under
    a [ctx.throw] that is false is started and the loop goes on with the
    items after it, whatever its status. A sequence entered with
    [ctx.throw] false in which no [ThrowConfig] and no [CommandObj] gives
    a [throw] that is true never ends in a command failure, and when it
    is made of literals every one of them is started, in order, and the
    sequence returns. So [false; echo should-not-run] starts only [false]
    under [throw = true] and both commands under [throw = false]. *)
Theorem sequence_stops_at_failure
    (shell : string -> State -> Z) (fuel : nat) (d : yaml)
    (pre : list Node) (s : string) (post : list Node) (st st1 : State)
    (Hpre : for_each (execute_command shell (S fuel)) pre st = (Return tt, st1))
    (Hthrow : py_bool (ctx_throw st1) = true)
    (Hstatus : shell s st1 <> 0%Z) :
  let r := execute_command shell (S (S fuel))
             (ListCommands d (pre ++ SimpleCommand s :: post)) st in
  fst r = Raise (CommandFailure (shell s st1))
  /\ started (snd r) = started st1 ++ [(s, process_cwd st1)]
  /\ (forall s' rest st2, py_bool (ctx_throw st2) = false ->
        for_each (execute_command shell (S fuel)) (SimpleCommand s' :: rest) st2
        = for_each (execute_command shell (S fuel)) rest
            (snd (sh.cmd shell s' (ctx_throw st2) st2))
        /\ started (snd (sh.cmd shell s' (ctx_throw st2) st2))
           = started st2 ++ [(s', process_cwd st2)])
  /\ (forall ss st2, py_bool (ctx_throw st2) = false ->
        let r2 := execute_command shell (S (S fuel))
                    (ListCommands d (map SimpleCommand ss)) st2 in
        fst r2 = Return tt
        /\ started (snd r2) = started st2 ++ map (fun c => (c, process_cwd st2)) ss)
  /\ (forall commands st2 status,
        never_throws (ListCommands d commands) = true ->
        py_bool (ctx_throw st2) = false ->
        fst (execute_command shell (S (S fuel)) (ListCommands d commands) st2)
        <> Raise (CommandFailure status))
  /\ execute_command Ex.shell 2 (ListCommands (YStr "") Ex.false_then_echo)
       (set_ctx_throw (YBool true) Ex.fresh)
     = (Raise (CommandFailure 1),
        mkState [] (YBool true) (Some Ex.home) ∅ Ex.home [] [("false", Ex.home)])
  /\ execute_command Ex.shell 2 (ListCommands (YStr "") Ex.false_then_echo) Ex.fresh
     = (Return tt,
        mkState [] (YBool false) (Some Ex.home) ∅ Ex.home []
                [("false", Ex.home); ("echo should-not-run", Ex.home)]).
Proof.
  cbv zeta.
  assert (E : for_each (execute_command shell (S fuel)) (pre ++ SimpleCommand s :: post) st
              = (Raise (CommandFailure (shell s st1)),
                 snd (sh.cmd shell s (ctx_throw st1) st1))).
  { rewrite for_each_app, Hpre. cbn [for_each].
    change (execute_command shell (S fuel) (SimpleCommand s) st1)
      with (sh.cmd shell s (ctx_throw st1) st1).
    unfold sh.cmd. rewrite Hthrow.
    assert ((shell s st1 =? 0)%Z = false) as -> by by apply Z.eqb_neq.
    reflexivity. }
  split; [|split; [|split; [|split; [|split; [|split; reflexivity]]]]].
  - by rewrite execute_command_list, E.
  - rewrite execute_command_list, E. cbn. unfold sh.cmd. by destruct (_ && _).
  - intros s' rest st2 Hfalse. cbn [for_each].
    change (execute_command shell (S fuel) (SimpleCommand s') st2)
      with (sh.cmd shell s' (ctx_throw st2) st2).
    unfold sh.cmd. by rewrite Hfalse, andb_false_r.
  - intros ss st2 Hfalse. rewrite execute_command_list.
    by destruct (for_each_literals shell fuel ss st2 Hfalse) as [Ho Hs].
  - intros commands st2 status Hnever Hfalse.
    apply (execute_command_calm shell (S (S fuel)) _ st2 Hnever Hfalse).
Qed.

Lemma sequence_stops_at_failure_witness :
  started (snd (execute_command Ex.shell 2
                  (ListCommands (YStr "")
                     ([ThrowConfig (YBool true)]
                        ++ SimpleCommand "false" :: [SimpleCommand "echo should-not-run"]))
                  Ex.fresh))
  = started (set_ctx_throw (YBool true) Ex.fresh)
      ++ [("false", process_cwd (set_ctx_throw (YBool true) Ex.fresh))].
Proof.
  refine (proj1 (proj2
            (sequence_stops_at_failure Ex.shell 0 (YStr "") [ThrowConfig (YBool true)]
               "false" [SimpleCommand "echo should-not-run"] Ex.fresh
               (set_ctx_throw (YBool true) Ex.fresh) _ _ _))).
  - reflexivity.
  - reflexivity.
  - vm_compute. lia.
Defined.
